(** * Gyeon Inventory Management System: the inventory core, verified

    A shallow embedding of the data logic of [Gyeon IMS Application.py]:
    the module-level algorithms [linear_search] and [bubble_sort], the
    storage helpers [save_to_file] and [load_from_file], and the methods
    of [GyeonInventoryApp] that read or change [self.inventory]
    ([add_item], [update_selected], [realtime_filter], [refresh_treeview]).

    Data model.  The inventory is a Python list of dicts whose keys and
    values are strings; a dict is a [gmap string string], so a key may be
    absent (the code reads with [.get]) and two dicts are equal exactly when
    they hold the same entries, as Python's [==] on dicts.  The list is a
    [list], read with [!!] and written with [<[i:=x]>]; an index the Python
    list would refuse is an [IndexError] in the model.

    Text.  A Python [str] is a Rocq [string], a sequence of characters
    with codes 0..255.  [strip], [lower], [isdigit] and [int] are given on
    the ASCII blanks, letters and digits; the other characters are carried
    along unchanged.

    Effects.  The methods run on the state [self.inventory]; each model
    returns the inventory it leaves behind together with how the call
    ended.  Dialog answers ([askyesno]) are inputs.  [bubble_sort] works on
    the list in place, through two loops over indices; its model threads the
    list through the same loops and stops with the list as it is at the
    moment an exception leaves them.  The table ([ttk.Treeview]) is the list
    of its rows.  The files are a map from paths to texts; [json.dump] and
    [json.load] are an encoder and a decoder on those texts; whether a write
    goes through is an input.  Directories are not modelled.

    The file has the program first, then the predicates the properties are
    stated with, then the proofs, and at the end one theorem for each
    claim about the program. *)

From Stdlib Require Import ZArith String Ascii List Sorted Permutation.
From Stdlib Require Import DecimalString DecimalPos Lia.
From stdpp Require Import gmap strings list fin_maps.

Set Default Proof Using "Type".
Local Open Scope Z_scope.

(** ** Exceptions and results *)

Inductive exn :=
  | TypeError | ValueError | KeyError | IndexError | TclError
  | OSError | JSONDecodeError.

Inductive res (A : Type) :=
  | Ok (a : A)
  | Raise (e : exn).
Arguments Ok {A} a.
Arguments Raise {A} e.

#[global] Instance res_ret : MRet res := λ A a, Ok a.
#[global] Instance res_bind : MBind res := λ A B k m,
  match m with
  | Ok a => k a
  | Raise e => Raise e
  end.

(** A run of code that works on a state in place: it returns, or it raises
    and leaves the state as it was at that moment. *)
Inductive run (S : Type) :=
  | Returns (s : S)
  | Raises (e : exn) (s : S).
Arguments Returns {S} s.
Arguments Raises {S} e s.

Definition final_state {S} (r : run S) : S :=
  match r with
  | Returns s => s
  | Raises _ s => s
  end.

(** ** Python text primitives *)

Module Py.

(** [str.isspace] on ASCII: tab, line feed, vertical tab, form feed,
    carriage return, the four separators 28..31 and the space. *)
Definition is_space (c : ascii) : bool :=
  let n := nat_of_ascii c in
  ((9 <=? n) && (n <=? 13) || (28 <=? n) && (n <=? 32))%nat.

Definition is_digit (c : ascii) : bool :=
  let n := nat_of_ascii c in ((48 <=? n) && (n <=? 57))%nat.

Definition digit_value (c : ascii) : Z := Z.of_nat (nat_of_ascii c) - 48.

Definition lower_char (c : ascii) : ascii :=
  let n := nat_of_ascii c in
  if ((65 <=? n) && (n <=? 90))%nat then ascii_of_nat (n + 32) else c.

(** [s.lower()] *)
Fixpoint lower (s : string) : string :=
  match s with
  | EmptyString => EmptyString
  | String c t => String (lower_char c) (lower t)
  end.

Fixpoint lstrip_chars (l : list ascii) : list ascii :=
  match l with
  | c :: t => if is_space c then lstrip_chars t else l
  | [] => []
  end.

Definition strip_chars (l : list ascii) : list ascii :=
  rev (lstrip_chars (rev (lstrip_chars l))).

(** [s.strip()] *)
Definition strip (s : string) : string :=
  string_of_list_ascii (strip_chars (list_ascii_of_string s)).

(** [s.isdigit()]: at least one character, all of them digits. *)
Definition isdigit (s : string) : bool :=
  match s with
  | EmptyString => false
  | _ => forallb is_digit (list_ascii_of_string s)
  end.

(** Truth value of a string: [if not s] holds for the empty string. *)
Definition is_empty (s : string) : bool :=
  match s with
  | EmptyString => true
  | _ => false
  end.

(** [str(x)] for the result of [dict.get(key)]: the string itself, or
    ["None"] when the key is absent. *)
Definition str (x : option string) : string :=
  match x with
  | Some s => s
  | None => "None"
  end.

(** The digits of an integer literal: digits, with single underscores
    allowed between two digits. *)
Fixpoint int_digits (acc : Z) (after_digit : bool) (l : list ascii) : option Z :=
  match l with
  | [] => if after_digit then Some acc else None
  | c :: t =>
      if is_digit c then int_digits (10 * acc + digit_value c) true t
      else if Ascii.eqb c "_" && after_digit then int_digits acc false t
      else None
  end.

Definition int_chars (l : list ascii) : option Z :=
  match l with
  | "-"%char :: t => Z.opp <$> int_digits 0 false t
  | "+"%char :: t => int_digits 0 false t
  | _ => int_digits 0 false l
  end.

(** [int(x)]: a [TypeError] for [None], a [ValueError] for a string
    that is not an integer literal (blanks around it are ignored). *)
Definition int (x : option string) : res Z :=
  match x with
  | None => Raise TypeError
  | Some s =>
      match int_chars (strip_chars (list_ascii_of_string s)) with
      | Some z => Ok z
      | None => Raise ValueError
      end
  end.

(** [str(n)] for an integer. *)
Definition str_of_int (z : Z) : string := NilZero.string_of_int (Z.to_int z).

(** [a > b] on strings: lexicographic on character codes. *)
Definition str_gt (a b : string) : bool := String.ltb b a.

Fixpoint contains_from (fuel : nat) (needle hay : string) : bool :=
  if String.prefix needle hay then true
  else match fuel, hay with
       | S f, String _ t => contains_from f needle t
       | _, _ => false
       end.

(** [needle in hay] *)
Definition contains (needle hay : string) : bool :=
  contains_from (String.length hay) needle hay.

End Py.

(** ** Records and the inventory *)

Abbreviation record := (gmap string string).

(** [item.get(key, default)] *)
Definition get (item : record) (key default : string) : string :=
  match item !! key with
  | Some v => v
  | None => default
  end.

(** [CATEGORY_ORDER] *)
Definition CATEGORY_ORDER : list string :=
  ["Coating & Wax"; "Maintenance"; "Pads"; "Accessories"].

(** ** [linear_search] *)

Fixpoint linear_search_from (i : Z) (inventory : list record) (target : string) : Z :=
  match inventory with
  | [] => -1
  | item :: rest =>
      if String.eqb (Py.lower (Py.strip (get item "name" ""))) target then i
      else linear_search_from (i + 1) rest target
  end.

Definition linear_search (inventory : list record) (name : string) : Z :=
  let target := Py.lower (Py.strip name) in
  linear_search_from 0 inventory target.

(** ** The form and the ways a handler ends *)

Record form := {
  product_entry : string;
  name_entry : string;
  cat_entry : string;
  qty_entry : string
}.

(** How [add_item] or [update_selected] ends: it runs to its last line,
    it shows one of its message boxes and returns early, or an exception
    leaves the handler. *)
Inductive verdict :=
  | Accepted
  | InputError_required
  | InputError_quantity
  | InputError_product_number
  | DuplicateProductNumber
  | Cancelled
  | SelectItem
  | Exception (e : exn).

(** ** [GyeonInventoryApp.add_item] *)

Definition add_item (inventory : list record) (f : form) (askyesno : bool)
  : list record * verdict :=
  let name := Py.strip (name_entry f) in
  let category := Py.strip (cat_entry f) in
  let qty := Py.strip (qty_entry f) in
  let prodnum := Py.strip (product_entry f) in
  if Py.is_empty name || Py.is_empty qty then (inventory, InputError_required)
  else if negb (Py.isdigit qty) then (inventory, InputError_quantity)
  else if Py.is_empty prodnum then (inventory, InputError_product_number)
  else
    let idx := linear_search inventory name in
    if negb (idx =? -1) then
      if askyesno then
        match inventory !! Z.to_nat idx with
        | None => (inventory, Exception IndexError)
        | Some item =>
            match item !! "quantity" with
            | None => (inventory, Exception KeyError)
            | Some q =>
                match Py.int (Some q) with
                | Raise e => (inventory, Exception e)
                | Ok old =>
                    match Py.int (Some qty) with
                    | Raise e => (inventory, Exception e)
                    | Ok new =>
                        (<[Z.to_nat idx := <["quantity" := Py.str_of_int (old + new)]> item]>
                           inventory,
                         Accepted)
                    end
                end
            end
        end
      else (inventory, Cancelled)
    else
      if negb (Py.is_empty prodnum)
         && existsb (λ itm, String.eqb (Py.strip (get itm "product_number" "")) prodnum)
                    inventory
      then (inventory, DuplicateProductNumber)
      else
        let new_item : record :=
          <["product_number" := prodnum]>
            (<["name" := name]> (<["category" := category]> (<["quantity" := qty]> ∅))) in
        (inventory ++ [new_item], Accepted).

(** ** [GyeonInventoryApp.update_selected] *)

(** The loop [for i, it in enumerate(self.inventory)] of [update_selected]:
    does a record other than the one at [idx] carry [prodnum]? *)
Fixpoint clashes_from (i : nat) (idx : nat) (prodnum : string) (l : list record) : bool :=
  match l with
  | [] => false
  | it :: rest =>
      if negb (i =? idx)%nat && String.eqb (Py.strip (get it "product_number" "")) prodnum
      then true
      else clashes_from (S i) idx prodnum rest
  end.

(** [selected] is the result of [_get_selected_index()]. *)
Definition update_selected (inventory : list record) (selected : option nat) (f : form)
  : list record * verdict :=
  match selected with
  | None => (inventory, SelectItem)
  | Some idx =>
      let name := Py.strip (name_entry f) in
      let category := Py.strip (cat_entry f) in
      let qty := Py.strip (qty_entry f) in
      let prodnum := Py.strip (product_entry f) in
      match inventory !! idx with
      | None => (inventory, Exception IndexError)
      | Some item =>
          let item := if Py.is_empty name then item else <["name" := name]> item in
          let item := if Py.is_empty category then item else <["category" := category]> item in
          let inventory := <[idx := item]> inventory in
          if negb (Py.is_empty prodnum) && clashes_from 0 idx prodnum inventory
          then (inventory, DuplicateProductNumber)
          else
            let item :=
              if Py.is_empty prodnum then item else <["product_number" := prodnum]> item in
            let inventory := <[idx := item]> inventory in
            if Py.is_empty qty then (inventory, Accepted)
            else if negb (Py.isdigit qty) then (inventory, InputError_quantity)
            else (<[idx := <["quantity" := qty]> item]> inventory, Accepted)
      end
  end.

(** ** The table and the filtered views *)

(** One row of the [ttk.Treeview]: its item id and the four displayed
    values.  An id written by the code is [str(i)] for a list index [i]; an
    id that Tk generates itself is not a number and is [None] here. *)
Record row := {
  iid : option nat;
  values : string * string * string * string
}.

Definition row_values (item : record) : string * string * string * string :=
  (get item "product_number" "", get item "name" "",
   get item "category" "", get item "quantity" "0").

(** [tree.insert("", tk.END, iid=..., values=...)]: Tk refuses an id that
    is already in the tree. *)
Definition tree_insert (tree : list row) (id : option nat)
    (vals : string * string * string * string) : res (list row) :=
  match id with
  | Some i =>
      if existsb (λ r, match iid r with Some j => (i =? j)%nat | None => false end) tree
      then Raise TclError
      else Ok (tree ++ [ {| iid := id; values := vals |} ])
  | None => Ok (tree ++ [ {| iid := id; values := vals |} ])
  end.

(** [l.index(x)]: the first position holding a value equal to [x];
    [None] stands for the [ValueError]. *)
Definition index {A} `{EqDecision A} (l : list A) (x : A) : option nat :=
  fst <$> list_find (λ y, y = x) l.

Fixpoint insert_rows (rows : list (option nat * record)) (tree : list row) : run (list row) :=
  match rows with
  | [] => Returns tree
  | (id, item) :: rest =>
      match tree_insert tree id (row_values item) with
      | Ok tree' => insert_rows rest tree'
      | Raise e => Raises e tree
      end
  end.

(** The ids [refresh_treeview] computes for a filtered list. *)
Definition filtered_iids (inventory data : list record) : list (option nat) :=
  map (λ item, index inventory item) data.

(** [refresh_treeview(data)]: the tree is emptied and filled again. *)
Definition refresh_treeview (inventory : list record) (data : option (list record))
  : run (list row) :=
  match data with
  | None => insert_rows (imap (λ i item, (Some i, item)) inventory) []
  | Some data => insert_rows (map (λ item, (index inventory item, item)) data) []
  end.

Definition keyword_filter (keyword : string) (inventory : list record) : list record :=
  List.filter (λ item, Py.contains keyword (Py.lower (get item "name" ""))
                       || Py.contains keyword (Py.lower (get item "product_number" "")))
              inventory.

(** [realtime_filter]: [search_var] is the text of the search bar. *)
Definition realtime_filter (inventory : list record) (search_var : string) : run (list row) :=
  let keyword := Py.lower (Py.strip search_var) in
  if Py.is_empty keyword then refresh_treeview inventory None
  else refresh_treeview inventory (Some (keyword_filter keyword inventory)).

Definition category_filter (sel : string) (inventory : list record) : list record :=
  List.filter (λ item, String.eqb (Py.lower (Py.strip (get item "category" ""))) (Py.lower sel))
              inventory.

(** The part of [filter_by_category] after the dialog; [sel] is the
    stripped choice, empty when the dialog was cancelled. *)
Definition filter_by_category (inventory : list record) (sel : string)
  : option (run (list row)) :=
  if Py.is_empty sel then None
  else Some (refresh_treeview inventory (Some (category_filter sel inventory))).

(** [_get_selected_index]: [sel] is the selected row, if any. *)
Definition _get_selected_index (inventory : list record) (sel : option row) : option nat :=
  match sel with
  | None => None
  | Some r =>
      match iid r with
      | Some i => Some i
      | None =>
          let name := snd (fst (fst (values r))) in
          if Py.is_empty name then None
          else
            let idx := linear_search inventory name in
            if idx =? -1 then None else Some (Z.to_nat idx)
      end
  end.

(** ** [bubble_sort] *)

Definition cat_index (val : option string) : nat :=
  match index CATEGORY_ORDER (Py.str val) with
  | Some i => i
  | None => length CATEGORY_ORDER
  end.

(** The test that decides a swap, for the values [a] and [b] read with
    [.get(key)] from two neighbours. *)
Definition compare_gt (key : string) (a b : option string) : res bool :=
  if String.eqb key "name" then
    Ok (Py.str_gt (Py.lower (Py.str a)) (Py.lower (Py.str b)))
  else if String.eqb key "product_number" then
    Ok (Py.str_gt (Py.lower (Py.str a)) (Py.lower (Py.str b)))
  else if String.eqb key "quantity" then
    x ← Py.int a; y ← Py.int b; Ok (x >? y)
  else if String.eqb key "category" then
    Ok (cat_index b <? cat_index a)%nat
  else Ok false.

Definition record_gt (key : string) (ra rb : record) : res bool :=
  compare_gt key (ra !! key) (rb !! key).

(** The loops work on the list in place.  The state carries two counters
    that the source does not have: the swaps done and the passes begun. *)
Record sort_state (A : Type) := {
  items : list A;
  swaps : nat;
  passes : nat
}.
Arguments items {A} s.
Arguments swaps {A} s.
Arguments passes {A} s.

Fixpoint for_each {S} (body : nat → S → run S) (js : list nat) (s : S) : run S :=
  match js with
  | [] => Returns s
  | j :: rest =>
      match body j s with
      | Returns s' => for_each body rest s'
      | Raises e s' => Raises e s'
      end
  end.

Section BubbleSort.
Context {A : Type} (gt : A → A → res bool).

(** The body of [for j in range(0, n - i - 1)]; the state is the list,
    the flag [swapped] and the swap counter. *)
Definition inner_step (j : nat) (st : list A * bool * nat) : run (list A * bool * nat) :=
  let '(inventory, swapped, count) := st in
  match inventory !! j, inventory !! (j + 1)%nat with
  | Some a, Some b =>
      match gt a b with
      | Raise e => Raises e st
      | Ok true => Returns (<[(j + 1)%nat := a]> (<[j := b]> inventory), true, S count)
      | Ok false => Returns st
      end
  | _, _ => Raises IndexError st
  end.

(** [for i in range(n)] with its [break]. *)
Fixpoint outer_loop (n : nat) (range : list nat) (st : sort_state A) : run (sort_state A) :=
  match range with
  | [] => Returns st
  | i :: rest =>
      match for_each inner_step (seq 0 (n - i - 1)) (items st, false, swaps st) with
      | Raises e (inventory, _, count) =>
          Raises e {| items := inventory; swaps := count; passes := S (passes st) |}
      | Returns (inventory, swapped, count) =>
          let st' := {| items := inventory; swaps := count; passes := S (passes st) |} in
          if swapped then outer_loop n rest st' else Returns st'
      end
  end.

Definition bubble_sort_by (inventory : list A) : run (sort_state A) :=
  let n := length inventory in
  outer_loop n (seq 0 n) {| items := inventory; swaps := 0; passes := 0 |}.

End BubbleSort.

Definition bubble_sort (key : string) (inventory : list record) : run (sort_state record) :=
  bubble_sort_by (record_gt key) inventory.

Local Close Scope Z_scope.

(** ** Python values and the [json] module *)

(** The values [json.load] builds (numbers with a fraction or an exponent
    are outside the model). *)
#[warnings="-register-all"] Inductive pyval :=
  | VNone
  | VBool (b : bool)
  | VInt (z : Z)
  | VStr (s : string)
  | VList (l : list pyval)
  | VDict (d : gmap string pyval).

(** The inventory as a Python value. *)
Definition inventory_value (inventory : list record) : pyval :=
  VList (map (λ r : record, VDict (VStr <$> r)) inventory).

Module Json.

Definition hex_digit (n : nat) : ascii :=
  ascii_of_nat (if n <? 10 then 48 + n else 87 + n).

(** [json.encoder]'s escape of one character, with [ensure_ascii]:
    the short escapes, [\u00XX] for every other character outside
    [' '..'~'], the character itself otherwise. *)
Definition escape_char (c : ascii) : list ascii :=
  let n := nat_of_ascii c in
  if n =? 34 then ["092"; "034"]%char
  else if n =? 92 then ["092"; "092"]%char
  else if n =? 10 then ["092"; "n"]%char
  else if n =? 13 then ["092"; "r"]%char
  else if n =? 9 then ["092"; "t"]%char
  else if n =? 8 then ["092"; "b"]%char
  else if n =? 12 then ["092"; "f"]%char
  else if (n <? 32) || (126 <? n) then
    ["092"; "u"; "0"; "0"; hex_digit (n / 16); hex_digit (n mod 16)]%char
  else [c].

Fixpoint escape (s : string) : list ascii :=
  match s with
  | EmptyString => []
  | String c t => escape_char c ++ escape t
  end.

Definition dump_str (s : string) : list ascii :=
  "034"%char :: escape s ++ ["034"%char].

Definition newline_indent (level : nat) : list ascii :=
  "010"%char :: repeat " "%char (2 * level).

(** [items] separated by [","] and a new line at [level], between
    [opening] and [closing]; the empty container has no line break. *)
Fixpoint dump_items (level : nat) (items : list (list ascii)) : list ascii :=
  match items with
  | [] => []
  | [x] => x
  | x :: rest => x ++ ","%char :: newline_indent level ++ dump_items level rest
  end.

Definition dump_container (opening closing : ascii) (level : nat)
    (items : list (list ascii)) : list ascii :=
  match items with
  | [] => [opening; closing]
  | _ => opening :: newline_indent (S level) ++ dump_items (S level) items
           ++ newline_indent level ++ [closing]
  end.

Definition dump_member (kv : string * string) : list ascii :=
  dump_str kv.1 ++ [":"; " "]%char ++ dump_str kv.2.

(** A dict of strings at nesting [level].  A [gmap] does not keep the
    order of insertion; the entries are written in the order of
    [map_to_list]. *)
Definition dump_record (level : nat) (r : record) : list ascii :=
  dump_container "{" "}" level (dump_member <$> map_to_list r).

(** [json.dump(inventory, f, indent=2)] *)
Definition dump_inventory (inventory : list record) : list ascii :=
  dump_container "[" "]" 0 (dump_record 1 <$> inventory).

(** *** Decoding *)

Definition is_ws (c : ascii) : bool :=
  let n := nat_of_ascii c in (n =? 32) || (n =? 9) || (n =? 10) || (n =? 13).

Fixpoint skip_ws (s : list ascii) : list ascii :=
  match s with
  | c :: t => if is_ws c then skip_ws t else s
  | [] => []
  end.

Definition hex_value (c : ascii) : option nat :=
  let n := nat_of_ascii c in
  if (48 <=? n) && (n <=? 57) then Some (n - 48)
  else if (97 <=? n) && (n <=? 102) then Some (n - 87)
  else if (65 <=? n) && (n <=? 70) then Some (n - 55)
  else None.

Definition unescape (c : ascii) : option ascii :=
  let n := nat_of_ascii c in
  if n =? 34 then Some "034"%char
  else if n =? 92 then Some "092"%char
  else if n =? 47 then Some "/"%char
  else if n =? 98 then Some "008"%char
  else if n =? 102 then Some "012"%char
  else if n =? 110 then Some "010"%char
  else if n =? 114 then Some "013"%char
  else if n =? 116 then Some "009"%char
  else None.

(** [scanstring], after the opening quote: up to the closing quote.  A
    raw control character is refused; so is, in this model, an escape of
    a character above 255. *)
Fixpoint scanstring (s : list ascii) : option (string * list ascii) :=
  match s with
  | [] => None
  | c :: t =>
      if Ascii.eqb c "034" then Some (EmptyString, t)
      else if Ascii.eqb c "092" then
        match t with
        | [] => None
        | e :: t1 =>
            if Ascii.eqb e "u" then
              match t1 with
              | h1 :: h2 :: h3 :: h4 :: t2 =>
                  match hex_value h1, hex_value h2, hex_value h3, hex_value h4 with
                  | Some a, Some b, Some c, Some d =>
                      let code := ((a * 16 + b) * 16 + c) * 16 + d in
                      if code <? 256 then
                        match scanstring t2 with
                        | Some (str, r) => Some (String (ascii_of_nat code) str, r)
                        | None => None
                        end
                      else None
                  | _, _, _, _ => None
                  end
              | _ => None
              end
            else
              match unescape e with
              | Some c' =>
                  match scanstring t1 with
                  | Some (str, r) => Some (String c' str, r)
                  | None => None
                  end
              | None => None
              end
        end
      else if nat_of_ascii c <? 32 then None
      else
        match scanstring t with
        | Some (str, r) => Some (String c str, r)
        | None => None
        end
  end.

Fixpoint scan_digits (acc : Z) (s : list ascii) : Z * list ascii :=
  match s with
  | c :: t => if Py.is_digit c then scan_digits (10 * acc + Py.digit_value c) t
              else (acc, s)
  | [] => (acc, [])
  end.

(** An integer literal; a fraction or an exponent after it makes a
    float, which the model does not cover. *)
Definition scan_int (s : list ascii) : option (Z * list ascii) :=
  let '(negative, s1) :=
    match s with
    | "-"%char :: t => (true, t)
    | _ => (false, s)
    end in
  let digits :=
    match s1 with
    | "0"%char :: t => Some (0%Z, t)
    | c :: t => if Py.is_digit c then Some (scan_digits (Py.digit_value c) t) else None
    | [] => None
    end in
  match digits with
  | Some (z, rest) =>
      match rest with
      | c :: _ =>
          if Ascii.eqb c "." || Ascii.eqb c "e" || Ascii.eqb c "E" then None
          else Some (if negative then (- z)%Z else z, rest)
      | [] => Some (if negative then (- z)%Z else z, rest)
      end
  | None => None
  end.

(** [dict(pairs)]: a later pair replaces an earlier one with its key. *)
Definition dict_of_pairs (pairs : list (string * pyval)) : gmap string pyval :=
  foldl (λ d kv, <[kv.1 := kv.2]> d) ∅ pairs.

(** [scan_once] at the first character of a value, with [JSONArray]
    and [JSONObject].  The three functions call each other; [fuel] goes
    down by one at each call, and [loads] starts with twice the length of
    the text and two, so that a call is never short of fuel before it is
    short of text. *)
Fixpoint parse_value (fuel : nat) (s : list ascii) : option (pyval * list ascii) :=
  match fuel with
  | O => None
  | S fuel' =>
      match s with
      | "034"%char :: t =>
          match scanstring t with
          | Some (str, r) => Some (VStr str, r)
          | None => None
          end
      | "["%char :: t =>
          match skip_ws t with
          | "]"%char :: r => Some (VList [], r)
          | t' =>
              match parse_elements fuel' t' with
              | Some (vs, r) => Some (VList vs, r)
              | None => None
              end
          end
      | "{"%char :: t =>
          match skip_ws t with
          | "}"%char :: r => Some (VDict ∅, r)
          | t' =>
              match parse_members fuel' t' with
              | Some (kvs, r) => Some (VDict (dict_of_pairs kvs), r)
              | None => None
              end
          end
      | "n"%char :: "u"%char :: "l"%char :: "l"%char :: r => Some (VNone, r)
      | "t"%char :: "r"%char :: "u"%char :: "e"%char :: r => Some (VBool true, r)
      | "f"%char :: "a"%char :: "l"%char :: "s"%char :: "e"%char :: r =>
          Some (VBool false, r)
      | _ =>
          match scan_int s with
          | Some (z, r) => Some (VInt z, r)
          | None => None
          end
      end
  end
with parse_elements (fuel : nat) (s : list ascii) : option (list pyval * list ascii) :=
  match fuel with
  | O => None
  | S fuel' =>
      match parse_value fuel' s with
      | Some (v, r) =>
          match skip_ws r with
          | "]"%char :: r' => Some ([v], r')
          | ","%char :: r' =>
              match parse_elements fuel' (skip_ws r') with
              | Some (vs, r'') => Some (v :: vs, r'')
              | None => None
              end
          | _ => None
          end
      | None => None
      end
  end
with parse_members (fuel : nat) (s : list ascii)
    : option (list (string * pyval) * list ascii) :=
  match fuel with
  | O => None
  | S fuel' =>
      match s with
      | "034"%char :: t =>
          match scanstring t with
          | Some (key, r) =>
              match skip_ws r with
              | ":"%char :: r1 =>
                  match parse_value fuel' (skip_ws r1) with
                  | Some (v, r2) =>
                      match skip_ws r2 with
                      | "}"%char :: r3 => Some ([(key, v)], r3)
                      | ","%char :: r3 =>
                          match parse_members fuel' (skip_ws r3) with
                          | Some (kvs, r4) => Some ((key, v) :: kvs, r4)
                          | None => None
                          end
                      | _ => None
                      end
                  | None => None
                  end
              | _ => None
              end
          | None => None
          end
      | _ => None
      end
  end.

(** [json.loads]: blanks, one value, blanks, and nothing more. *)
Definition loads (s : list ascii) : res pyval :=
  match parse_value (2 * length s + 2) (skip_ws s) with
  | Some (v, r) =>
      match skip_ws r with
      | [] => Ok v
      | _ => Raise JSONDecodeError
      end
  | None => Raise JSONDecodeError
  end.

End Json.

(** ** Files *)

Abbreviation files := (gmap string (list ascii)).

(** What a write to a path does: it goes through, or it raises and leaves
    something (or nothing) at the path. *)
Inductive io :=
  | Done
  | Fails (remains : option (list ascii)).

Definition put (path : string) (content : option (list ascii)) (fs : files) : files :=
  match content with
  | Some text => <[path := text]> fs
  | None => delete path fs
  end.

(** [save_to_file(path, inventory)].  [atomic] is the fate of the [try]
    block (write [path + ".tmp"], then [os.replace]), [direct] that of the
    write in the [except] block. *)
Definition save_to_file (atomic direct : io) (path : string) (inventory : list record)
    (fs : files) : run files :=
  let text := Json.dump_inventory inventory in
  let tmp := path +:+ ".tmp" in
  match atomic with
  | Done => Returns (<[path := text]> (delete tmp fs))
  | Fails left_tmp =>
      let fs := put tmp left_tmp fs in
      match direct with
      | Done => Returns (<[path := text]> fs)
      | Fails partial => Raises OSError (put path partial fs)
      end
  end.

(** [load_from_file(path)]; [create] is the fate of the write that makes
    a missing file. *)
Definition load_from_file (create : io) (path : string) (fs : files) : files * res pyval :=
  match fs !! path with
  | None =>
      match create with
      | Done => (<[path := Json.dump_inventory []]> fs, Ok (VList []))
      | Fails partial => (put path partial fs, Ok (VList []))
      end
  | Some text => (fs, Json.loads text)
  end.

(** ** [refresh_table], [on_tree_select], [delete_selected], [search_item],
    [sort_items] *)

(** [refresh_table]: the tree is emptied and every record gets a row whose
    id is its position. *)
Definition refresh_table (inventory : list record) : run (list row) :=
  insert_rows (imap (λ i item, (Some i, item)) inventory) [].

(** [on_tree_select]: the form as it is filled from the selected record;
    [None] when nothing is selected, [IndexError] past the end. *)
Definition on_tree_select (inventory : list record) (selected : option nat)
  : option (res form) :=
  match selected with
  | None => None
  | Some idx =>
      match inventory !! idx with
      | None => Some (Raise IndexError)
      | Some item =>
          Some (Ok {| product_entry := get item "product_number" "";
                      name_entry := get item "name" "";
                      cat_entry := get item "category" "";
                      qty_entry := get item "quantity" "" |})
      end
  end.

(** How [delete_selected] ends. *)
Inductive deletion :=
  | Deleted
  | Declined
  | NothingSelected
  | DeleteRaised (e : exn).

(** [delete_selected]: [selected] is the result of [_get_selected_index()],
    [askyesno] the answer to the confirmation.  (The table is filled anew
    afterwards, see [refresh_table].) *)
Definition delete_selected (inventory : list record) (selected : option nat)
    (askyesno : bool) : list record * deletion :=
  match selected with
  | None => (inventory, NothingSelected)
  | Some idx =>
      match inventory !! idx with
      | None => (inventory, DeleteRaised IndexError)
      | Some item =>
          if askyesno then (delete idx inventory, Deleted)
          else (inventory, Declined)
      end
  end.

(** [search_item]: [answer] is what the dialog returned ([None] when it was
    closed).  The result is the table and the number of records the message
    box reports; the box is reached only when the table was filled. *)
Definition search_item (inventory : list record) (answer : option string)
  : option (run (list row) * option nat) :=
  match answer with
  | None => None
  | Some keyword =>
      if Py.is_empty (Py.strip keyword) then None
      else
        let keyword := Py.lower (Py.strip keyword) in
        let filtered := keyword_filter keyword inventory in
        let result := refresh_treeview inventory (Some filtered) in
        Some (result,
              match result with
              | Returns _ => Some (length filtered)
              | Raises _ _ => None
              end)
  end.

(** [sort_items]: only the four keys reach [bubble_sort]; an exception of
    the sort leaves the handler with the list as the sort left it. *)
Definition sort_items (key : string) (inventory : list record) : run (list record) :=
  if bool_decide (key ∈ ["name"; "quantity"; "category"; "product_number"]) then
    match bubble_sort key inventory with
    | Returns st => Returns (items st)
    | Raises e st => Raises e (items st)
    end
  else Returns inventory.

(** ** [load_inventory] and [clear_all] *)

(** What [load_inventory] puts into [self.inventory]: dicts whose values
    are whatever the file holds. *)
Abbreviation raw_record := (gmap string pyval).

Definition raw_inventory (inventory : list record) : list raw_record :=
  (λ r : record, VStr <$> r) <$> inventory.

(** Truth value of a Python value, as in [x or []]. *)
Definition truthy (v : pyval) : bool :=
  match v with
  | VNone => false
  | VBool b => b
  | VInt z => negb (z =? 0)%Z
  | VStr s => negb (Py.is_empty s)
  | VList l => match l with [] => false | _ => true end
  | VDict d => negb (bool_decide (d = ∅))
  end.

(** [for it in loaded]: the elements of a list, the keys of a dict, the
    characters of a string; other values cannot be iterated. *)
Definition iterate (v : pyval) : res (list pyval) :=
  match v with
  | VList l => Ok l
  | VDict d => Ok (VStr <$> (map_to_list d).*1)
  | VStr s => Ok ((λ c, VStr (String c EmptyString)) <$> list_ascii_of_string s)
  | _ => Raise TypeError
  end.

(** The loop that keeps the dict entries and counts the others. *)
Fixpoint clean (loaded : list pyval) : list raw_record * nat :=
  match loaded with
  | [] => ([], 0)
  | it :: rest =>
      let '(cleaned, skipped) := clean rest in
      match it with
      | VDict d => (d :: cleaned, skipped)
      | _ => (cleaned, S skipped)
      end
  end.

(** How [load_inventory] ends: the inventory is replaced and so many
    entries were skipped, or one of the two error boxes is shown. *)
Inductive loading :=
  | Loaded (skipped : nat)
  | UnexpectedFormat
  | LoadError (e : exn).

(** [load_inventory] on the value [load_from_file] returned. *)
Definition load_value (data : pyval) (current : list raw_record)
  : list raw_record * loading :=
  let loaded :=
    match data with
    | VDict d =>
        match d !! "inventory" with
        | Some v => Some (if truthy v then v else VList [])
        | None => None
        end
    | VList l => Some data
    | _ => None
    end in
  match loaded with
  | None => (current, UnexpectedFormat)
  | Some loaded =>
      match iterate loaded with
      | Raise e => (current, LoadError e)
      | Ok entries => let '(cleaned, skipped) := clean entries in (cleaned, Loaded skipped)
      end
  end.

(** [load_inventory]: [current] is [self.inventory] before the call. *)
Definition load_inventory (create : io) (path : string) (fs : files)
    (current : list raw_record) : files * list raw_record * loading :=
  match load_from_file create path fs with
  | (fs', Ok data) => let '(inventory, how) := load_value data current in (fs', inventory, how)
  | (fs', Raise e) => (fs', current, LoadError e)
  end.

(** [clear_all]: with the answer yes the inventory is emptied and the data
    file removed; [removed] tells whether [os.remove] went through (its
    failure is swallowed). *)
Definition clear_all (askyesno removed : bool) (path : string) (inventory : list record)
    (fs : files) : list record * files :=
  if askyesno then ([], if removed then delete path fs else fs) else (inventory, fs).

(** ** The start of the application *)

Definition is_dict (v : pyval) : bool :=
  match v with
  | VDict _ => true
  | _ => false
  end.

(** The last lines of [__init__]: what was loaded becomes the inventory,
    unless [load_from_file] raises or [refresh_table] cannot show it (the
    value cannot be iterated, or an entry has no [get]). *)
Definition startup (create : io) (path : string) (fs : files) : files * pyval :=
  match load_from_file create path fs with
  | (fs', Ok data) =>
      match iterate data with
      | Ok entries => (fs', if forallb is_dict entries then data else VList [])
      | Raise _ => (fs', VList [])
      end
  | (fs', Raise _) => (fs', VList [])
  end.

(** ** The summary of [export_as] *)

(** A Python dict that is filled key by key, in the order of first
    insertion. *)
Fixpoint odict_get {V} (d : list (string * V)) (key : string) : option V :=
  match d with
  | [] => None
  | (k, v) :: rest => if String.eqb k key then Some v else odict_get rest key
  end.

Fixpoint odict_set {V} (d : list (string * V)) (key : string) (v : V) : list (string * V) :=
  match d with
  | [] => [(key, v)]
  | (k, v') :: rest =>
      if String.eqb k key then (k, v) :: rest else (k, v') :: odict_set rest key v
  end.

(** [int(it.get("quantity", 0))], 0 when it raises. *)
Definition export_quantity (it : record) : Z :=
  match it !! "quantity" with
  | None => 0%Z
  | Some s =>
      match Py.int (Some s) with
      | Ok z => z
      | Raise _ => 0%Z
      end
  end.

(** [(x or "").strip() or default] *)
Definition stripped_or (x : option string) (default : string) : string :=
  let s := Py.strip (match x with Some s => s | None => "" end) in
  if Py.is_empty s then default else s.

Definition export_category (it : record) : string :=
  stripped_or (it !! "category") "Uncategorized".

(** The parts of one line of [by_category_products]: product number, name
    and quantity.  (The line itself joins them with a dash that is not an
    8-bit character.) *)
Record statement := {
  stmt_product : string;
  stmt_name : string;
  stmt_qty : Z
}.

Definition export_statement (it : record) : statement :=
  {| stmt_product := stripped_or (it !! "product_number") "N/A";
     stmt_name := stripped_or (it !! "name") "Unnamed";
     stmt_qty := export_quantity it |}.

Record summary := {
  total_items : nat;
  total_quantity : Z;
  by_category_counts : list (string * nat);
  by_category_products : list (string * list statement)
}.

(** One round of [for it in self.inventory] in [export_as]. *)
Definition export_step (s : summary) (it : record) : summary :=
  let q := export_quantity it in
  let cat := export_category it in
  {| total_items := total_items s;
     total_quantity := (total_quantity s + q)%Z;
     by_category_counts :=
       odict_set (by_category_counts s) cat
         (match odict_get (by_category_counts s) cat with Some n => n | None => 0 end + 1);
     by_category_products :=
       odict_set (by_category_products s) cat
         (match odict_get (by_category_products s) cat with Some l => l | None => [] end
          ++ [export_statement it]) |}.

(** The summary [export_as] writes. *)
Definition export_summary (inventory : list record) : summary :=
  foldl export_step
    {| total_items := length inventory; total_quantity := 0;
       by_category_counts := []; by_category_products := [] |}
    inventory.

(** * The properties, as predicates on the model *)

(** [item]'s name is [name], up to case and surrounding blanks. *)
Definition name_matches (name : string) (item : record) : Prop :=
  Py.lower (Py.strip (get item "name" "")) = Py.lower (Py.strip name).

Definition product_number (item : record) : string := get item "product_number" "".

(** Invariant I1: no two records share a non-empty product number. *)
Definition I1 (inventory : list record) : Prop :=
  NoDup (filter (λ p, p ≠ "") (product_number <$> inventory)).

(** A form that passes the three input checks of [add_item]. *)
Definition valid_add (f : form) : Prop :=
  Py.strip (name_entry f) ≠ ""
  ∧ Py.isdigit (Py.strip (qty_entry f)) = true
  ∧ Py.strip (product_entry f) ≠ "".

(** A record that the sort on [key] can compare: for the quantity key its
    quantity must be an integer literal. *)
Definition comparable (key : string) (r : record) : Prop :=
  key = "quantity" → ∃ z, Py.int (r !! "quantity") = Ok z.

(** A list no element of which the test of [bubble_sort] puts after a
    later one. *)
Definition ordered_by (key : string) (l : list record) : Prop :=
  StronglySorted (λ a b, record_gt key a b = Ok false) l.


(** The records that tie with [r] under the test of [bubble_sort]. *)
Definition tied (key : string) (r x : record) : bool :=
  match record_gt key x r, record_gt key r x with
  | Ok false, Ok false => true
  | _, _ => false
  end.


(** Invariant I2: every quantity is a digit string. *)
Definition I2 (inventory : list record) : Prop :=
  Forall (λ r : record, ∃ q, r !! "quantity" = Some q ∧ Py.isdigit q = true) inventory.

(** The name of a record as [linear_search] compares it. *)
Definition search_name (item : record) : string :=
  Py.lower (Py.strip (get item "name" "")).

(** No two records have the same name up to case and blanks. *)
Definition names_unique (inventory : list record) : Prop :=
  NoDup (search_name <$> inventory).

(** A text without blanks around it, or nothing but blanks. *)
Definition tidy (s : string) : Prop := Py.strip s = s ∨ Py.strip s = "".

Definition tidy_record (item : record) : Prop :=
  ∀ key, key ∈ ["product_number"; "name"; "category"; "quantity"] →
         tidy (get item key "").

(** [item'] is [item] after some of the writes of [update_selected] from
    the form [f]: every field is as before or holds the stripped entry of
    the form, which is then not empty and, for the quantity, numeric. *)
Definition updated_from (f : form) (item item' : record) : Prop :=
  ∀ key,
    item' !! key = item !! key
    ∨ (key = "name" ∧ Py.strip (name_entry f) ≠ ""
       ∧ item' !! key = Some (Py.strip (name_entry f)))
    ∨ (key = "category" ∧ Py.strip (cat_entry f) ≠ ""
       ∧ item' !! key = Some (Py.strip (cat_entry f)))
    ∨ (key = "product_number" ∧ Py.strip (product_entry f) ≠ ""
       ∧ item' !! key = Some (Py.strip (product_entry f)))
    ∨ (key = "quantity" ∧ Py.isdigit (Py.strip (qty_entry f)) = true
       ∧ item' !! key = Some (Py.strip (qty_entry f))).

(** The row [r] shows [item] and, when selected, is resolved by
    [_get_selected_index] to a position that holds [item]. *)
Definition resolves (inventory : list record) (item : record) (r : row) : Prop :=
  values r = row_values item
  ∧ ∃ i, _get_selected_index inventory (Some r) = Some i ∧ inventory !! i = Some item.

(** The table was filled without an error, row by row from [data]. *)
Definition shows (inventory data : list record) (result : run (list row)) : Prop :=
  ∃ rows, result = Returns rows ∧ Forall2 (resolves inventory) data rows.

(** [needle] is a part of [hay]. *)
Definition occurs (needle hay : string) : Prop :=
  ∃ before after, hay = before +:+ needle +:+ after.

(** Sample records. *)
Definition mk (pn n c q : string) : record :=
  <["product_number" := pn]> (<["name" := n]> (<["category" := c]> (<["quantity" := q]> ∅))).

Definition two_items : list record :=
  [mk "P1" "Wax A" "Coating & Wax" "5"; mk "P2" "Foam" "Maintenance" "3"].

Definition unsorted_items : list record :=
  [mk "P1" "Zeta" "Pads" "10"; mk "P2" "alpha" "Maintenance" "9"; mk "P3" "Beta" "Other" "9"].

Definition sorted_items : list record :=
  [mk "P2" "alpha" "Maintenance" "9"; mk "P3" "Beta" "Other" "9"; mk "P1" "Zeta" "Pads" "10"].

Definition wax_form : form :=
  {| product_entry := "P9"; name_entry := " wax a "; cat_entry := "Pads"; qty_entry := "3" |}.

(** A record from a file written before product numbers existed. *)
Definition legacy_wax : record :=
  <["name" := "Wax"]> (<["category" := "Pads"]> (<["quantity" := "5"]> ∅)).

(** * Functions used in the proofs *)

Definition clean_head (l : list ascii) : Prop :=
  match l with
  | [] => True
  | c :: _ => Py.is_space c = false
  end.


(** Bubble sort on lists: one pass and the passes, as list functions. *)
Section Passes.
Context {A : Type} (gtb : A → A → bool).

(** One pass over the first [m] neighbouring pairs; the result and the
    number of swaps. *)
Fixpoint pass (m : nat) (l : list A) : list A * nat :=
  match m, l with
  | S m', a :: b :: t =>
      if gtb a b then
        let '(r, c) := pass m' (a :: t) in (b :: r, S c)
      else
        let '(r, c) := pass m' (b :: t) in (a :: r, c)
  | _, _ => (l, 0)
  end.

(** The passes for [i] in [range], with the early exit. *)
Fixpoint run_passes (n : nat) (range : list nat) (st : sort_state A) : sort_state A :=
  match range with
  | [] => st
  | i :: rest =>
      let '(l, k) := pass (n - i - 1) (items st) in
      let st' := {| items := l; swaps := swaps st + k; passes := S (passes st) |} in
      if (0 <? k) then run_passes n rest st' else st'
  end.

(** Two values tie when neither is greater than the other. *)
Definition tieb (r x : A) : bool := negb (gtb x r) && negb (gtb r x).

(** The loop invariant of the passes: the last [i] places hold, in order,
    elements that no element before them exceeds. *)
Definition settled (i : nat) (l : list A) : Prop :=
  ∃ pre suf, l = pre ++ suf ∧ length suf = i
    ∧ StronglySorted (λ a b, gtb a b = false) suf
    ∧ ∀ x y, x ∈ pre → y ∈ suf → gtb x y = false.

End Passes.

Definition int_or_zero (x : option string) : Z :=
  match Py.int x with
  | Ok z => z
  | Raise _ => 0%Z
  end.

(** [record_gt] as a total test: it agrees with [record_gt] wherever that
    one returns. *)
Definition record_gtb (key : string) (ra rb : record) : bool :=
  if String.eqb key "name" || String.eqb key "product_number" then
    Py.str_gt (Py.lower (Py.str (ra !! key))) (Py.lower (Py.str (rb !! key)))
  else if String.eqb key "quantity" then
    (int_or_zero (ra !! key) >? int_or_zero (rb !! key))%Z
  else if String.eqb key "category" then
    cat_index (rb !! key) <? cat_index (ra !! key)
  else false.

Definition member_value (kv : string * string) : string * pyval := (kv.1, VStr kv.2).

(** Fuel that is enough to read a list of records. *)
Definition weight (ds : list record) : nat := list_sum ((λ r : record, size r + 3) <$> ds).

#[global] Instance VStr_inj : Inj (=) (=) VStr.
Proof. by intros ?? [=]. Qed.

(** * Proofs *)

Local Open Scope Z_scope.

(** ** [linear_search] *)

Lemma linear_search_from_spec inventory target i :
  let r := linear_search_from i inventory target in
  (∃ k item, r = i + Z.of_nat k ∧ inventory !! k = Some item
      ∧ Py.lower (Py.strip (get item "name" "")) = target
      ∧ ∀ j other, (j < k)%nat → inventory !! j = Some other →
          Py.lower (Py.strip (get other "name" "")) ≠ target)
  ∨ (r = -1 ∧ Forall (λ item, Py.lower (Py.strip (get item "name" "")) ≠ target) inventory).
Proof.
  revert i. induction inventory as [|item rest IH]; intros i; simpl.
  - right. split; [done|constructor].
  - destruct (String.eqb_spec (Py.lower (Py.strip (get item "name" ""))) target) as [Heq|Hne].
    + left. exists 0%nat, item. split; [lia|]. split; [done|]. split; [done|].
      intros j other Hj. lia.
    + destruct (IH (i + 1)) as [(k & it & Hr & Hk & Hm & Hmin)|[Hr Hall]].
      * left. exists (S k), it. split; [lia|]. split; [done|]. split; [done|].
        intros [|j] other Hj Hl; simpl in Hl.
        -- by inversion Hl; subst.
        -- apply (Hmin j); [lia|done].
      * right. split; [done|]. by constructor.
Qed.

Lemma linear_search_spec (inventory : list record) (name : string) :
  let r := linear_search inventory name in
  (∃ i item, r = Z.of_nat i ∧ inventory !! i = Some item ∧ name_matches name item
     ∧ ∀ j other, (j < i)%nat → inventory !! j = Some other → ¬ name_matches name other)
  ∨ (r = -1 ∧ Forall (λ item, ¬ name_matches name item) inventory).
Proof.
  unfold linear_search, name_matches.
  destruct (linear_search_from_spec inventory (Py.lower (Py.strip name)) 0)
    as [(k & it & Hr & Hk & Hm & Hmin)|[Hr Hall]].
  - left. exists k, it. simpl in *. split; [lia|]. eauto.
  - right. done.
Qed.

(** ** Facts on [strip], [isdigit] and [int] *)

Lemma lstrip_clean l : clean_head (Py.lstrip_chars l).
Proof.
  induction l as [|c t IH]; simpl; [done|].
  destruct (Py.is_space c) eqn:E; [done|]. simpl. done.
Qed.

Lemma lstrip_id l : clean_head l → Py.lstrip_chars l = l.
Proof. destruct l as [|c t]; simpl; [done|]. by intros ->. Qed.

Lemma lstrip_suffix l : ∃ w, l = w ++ Py.lstrip_chars l.
Proof.
  induction l as [|c t [w Hw]]; simpl.
  - by exists [].
  - destruct (Py.is_space c).
    + exists (c :: w). simpl. by f_equal.
    + by exists [].
Qed.

Lemma rstrip_clean l : clean_head l → clean_head (rev (Py.lstrip_chars (rev l))).
Proof.
  intros Hl. destruct (lstrip_suffix (rev l)) as [w Hw].
  assert (l = rev (Py.lstrip_chars (rev l)) ++ rev w) as Heq.
  { rewrite <- rev_app_distr, <- Hw. by rewrite rev_involutive. }
  destruct (rev (Py.lstrip_chars (rev l))) as [|c t]; [done|].
  rewrite Heq in Hl. done.
Qed.

Lemma strip_chars_idemp l : Py.strip_chars (Py.strip_chars l) = Py.strip_chars l.
Proof.
  unfold Py.strip_chars.
  set (l1 := Py.lstrip_chars l).
  rewrite (lstrip_id (rev (Py.lstrip_chars (rev l1))))
    by (apply rstrip_clean, lstrip_clean).
  rewrite rev_involutive.
  by rewrite (lstrip_id (Py.lstrip_chars (rev l1))) by apply lstrip_clean.
Qed.

Lemma strip_idemp s : Py.strip (Py.strip s) = Py.strip s.
Proof.
  unfold Py.strip. by rewrite list_ascii_of_string_of_list_ascii, strip_chars_idemp.
Qed.








(** ** The invariant I1 under [add_item] and [update_selected] *)

Lemma is_empty_false s : Py.is_empty s = false ↔ s ≠ "".
Proof. destruct s; simpl; split; congruence. Qed.

Lemma product_number_insert_ne k v (item : record) :
  k ≠ "product_number" → product_number (<[k := v]> item) = product_number item.
Proof. intros Hk. unfold product_number, get. by rewrite lookup_insert_ne. Qed.

Lemma product_number_insert v (item : record) :
  product_number (<["product_number" := v]> item) = v.
Proof. unfold product_number, get. by rewrite lookup_insert_eq. Qed.

Lemma product_numbers_insert (inventory : list record) i item :
  product_number <$> <[i := item]> inventory
  = <[i := product_number item]> (product_number <$> inventory).
Proof. apply list_fmap_insert. Qed.

Lemma product_numbers_insert_same (inventory : list record) i item item' :
  inventory !! i = Some item → product_number item' = product_number item →
  product_number <$> <[i := item']> inventory = product_number <$> inventory.
Proof.
  intros Hi Hpn. rewrite product_numbers_insert, Hpn.
  apply list_insert_id. by rewrite list_lookup_fmap, Hi.
Qed.

(** Writing [p] at position [i] keeps the product numbers distinct when no
    other position holds [p]. *)
Lemma NoDup_filter_insert (l : list string) i p :
  NoDup (filter (λ q, q ≠ "") l) →
  (∀ j q, j ≠ i → l !! j = Some q → q ≠ p) →
  NoDup (filter (λ q, q ≠ "") (<[i := p]> l)).
Proof.
  intros Hnd Hother.
  destruct (decide (i < length l)%nat) as [Hlt|Hge];
    [|by rewrite list_insert_ge by lia].
  destruct (lookup_lt_is_Some_2 l i Hlt) as [x Hx].
  rewrite <- (take_drop_middle l i x Hx) in Hnd.
  rewrite <- (take_drop_middle l i x Hx) at 1.
  assert (length (take i l) = i) as Hlen by (rewrite length_take; lia).
  rewrite insert_app_r_alt by lia. rewrite Hlen, Nat.sub_diag. simpl.
  rewrite filter_app in Hnd |- *.
  apply NoDup_app in Hnd as (Hnd1 & Hdisj & Hnd2).
  rewrite filter_cons in Hnd2, Hdisj.
  assert (NoDup (filter (λ q, q ≠ "") (drop (S i) l))
          ∧ ∀ y, y ∈ filter (λ q, q ≠ "") (take i l) → y ∉ filter (λ q, q ≠ "") (drop (S i) l))
    as [Hnd3 Hdisj3].
  { destruct (decide (x ≠ "")).
    - apply NoDup_cons in Hnd2 as [_ ?]. split; [done|].
      intros y Hy Hy'. apply (Hdisj y Hy). by right.
    - done. }
  assert (p ∉ take i l) as Hp1.
  { intros (j & Hj)%list_elem_of_lookup.
    pose proof (lookup_lt_Some _ _ _ Hj) as Hjlt. rewrite length_take in Hjlt.
    rewrite lookup_take_lt in Hj by lia.
    apply (Hother j p); [lia|done|done]. }
  assert (p ∉ drop (S i) l) as Hp2.
  { intros (j & Hj)%list_elem_of_lookup. rewrite lookup_drop in Hj.
    apply (Hother (S i + j)%nat p); [lia|done|done]. }
  apply NoDup_app. split; [done|]. rewrite filter_cons.
  destruct (decide (p ≠ "")).
  - split.
    + intros y Hy [->|Hy']%elem_of_cons.
      * apply list_elem_of_filter in Hy as [_ ?]. done.
      * by apply (Hdisj3 y).
    + apply NoDup_cons. split; [|done].
      intros [_ ?]%list_elem_of_filter. done.
  - done.
Qed.

Lemma clashes_from_false i idx p (l : list record) :
  clashes_from i idx p l = false →
  ∀ k it, l !! k = Some it → (i + k)%nat ≠ idx → Py.strip (product_number it) ≠ p.
Proof.
  revert i. induction l as [|it' rest IH]; intros i H k it Hk Hne; [done|].
  simpl in H.
  destruct (negb (i =? idx)%nat && String.eqb (Py.strip (get it' "product_number" "")) p)
    eqn:E; [done|].
  destruct k as [|k]; simpl in Hk.
  - inversion Hk; subst it'. apply andb_false_iff in E as [E|E].
    + apply negb_false_iff, Nat.eqb_eq in E. lia.
    + by apply String.eqb_neq in E.
  - apply (IH (S i) H k it Hk). lia.
Qed.

Lemma I1_append inventory (item : record) :
  I1 inventory →
  (∀ it, it ∈ inventory → product_number it ≠ product_number item) →
  I1 (inventory ++ [item]).
Proof.
  unfold I1. intros Hnd Hfresh. rewrite fmap_app, filter_app. simpl.
  apply NoDup_app. split; [done|]. split.
  - intros y Hy Hy'. rewrite filter_cons in Hy'.
    destruct (decide (product_number item ≠ "")); [|by apply elem_of_nil in Hy'].
    apply list_elem_of_singleton in Hy' as ->.
    apply list_elem_of_filter in Hy as [_ Hy].
    apply list_elem_of_fmap in Hy as (it & Heq & Hit).
    by apply (Hfresh it Hit).
  - rewrite filter_cons. destruct (decide (product_number item ≠ "")).
    + apply NoDup_singleton.
    + apply NoDup_nil_2.
Qed.

Lemma add_item_I1 inventory f askyesno :
  I1 inventory → I1 (add_item inventory f askyesno).1.
Proof.
  intros HI. unfold add_item.
  set (name := Py.strip (name_entry f)).
  set (category := Py.strip (cat_entry f)).
  set (qty := Py.strip (qty_entry f)).
  set (prodnum := Py.strip (product_entry f)).
  destruct (Py.is_empty name || Py.is_empty qty); [done|].
  destruct (negb (Py.isdigit qty)); [done|].
  destruct (Py.is_empty prodnum) eqn:Hempty; [done|].
  destruct (negb (linear_search inventory name =? -1)).
  - destruct askyesno; [|done].
    destruct (inventory !! Z.to_nat (linear_search inventory name)) as [item|] eqn:Hi;
      [|done].
    destruct (item !! "quantity"); [|done].
    destruct (Py.int _); [|done]. destruct (Py.int _); [|done]. simpl.
    unfold I1. erewrite product_numbers_insert_same; [done..|].
    by apply product_number_insert_ne.
  - simpl.
    destruct (existsb _ inventory) eqn:Hex; [done|]. simpl.
    apply I1_append; [done|].
    intros it Hit. rewrite product_number_insert. intros Heq.
    assert (existsb (λ itm, String.eqb (Py.strip (get itm "product_number" "")) prodnum)
                    inventory = true) as Hc; [|congruence].
    apply existsb_exists. exists it. split; [by apply list_elem_of_In|].
    apply String.eqb_eq. fold (product_number it). rewrite Heq. apply strip_idemp.
Qed.

Lemma update_selected_I1 inventory selected f :
  I1 inventory → I1 (update_selected inventory selected f).1.
Proof.
  intros HI. unfold update_selected.
  destruct selected as [idx|]; [|done].
  destruct (inventory !! idx) as [item|] eqn:Hidx; [|done].
  set (name := Py.strip (name_entry f)).
  set (category := Py.strip (cat_entry f)).
  set (qty := Py.strip (qty_entry f)).
  set (prodnum := Py.strip (product_entry f)).
  set (item1 := if Py.is_empty name then item else <["name" := name]> item).
  set (item2 := if Py.is_empty category then item1 else <["category" := category]> item1).
  assert (product_number item2 = product_number item) as Hpn2.
  { unfold item2, item1.
    destruct (Py.is_empty name), (Py.is_empty category);
      rewrite ?product_number_insert_ne; done. }
  assert (product_number <$> <[idx := item2]> inventory = product_number <$> inventory)
    as Hpns2 by by eapply product_numbers_insert_same.
  destruct (negb (Py.is_empty prodnum) && clashes_from 0 idx prodnum (<[idx:=item2]> inventory))
    eqn:Hclash; simpl.
  { unfold I1. by rewrite Hpns2. }
  set (item3 := if Py.is_empty prodnum then item2 else <["product_number" := prodnum]> item2).
  rewrite list_insert_insert_eq.
  assert (I1 (<[idx := item3]> inventory)) as HI3.
  { unfold item3. destruct (Py.is_empty prodnum) eqn:Hempty.
    - unfold I1. by erewrite product_numbers_insert_same.
    - simpl in Hclash. unfold I1.
      rewrite product_numbers_insert, product_number_insert.
      apply NoDup_filter_insert; [done|].
      intros j q Hj Hq Heq. subst q.
      rewrite list_lookup_fmap in Hq.
      destruct (inventory !! j) as [it|] eqn:Hit; [|done]. simpl in Hq.
      eapply (clashes_from_false _ _ _ _ Hclash j it).
      + by rewrite list_lookup_insert_ne.
      + simpl. lia.
      + inversion Hq as [Hq']. rewrite Hq'. apply strip_idemp. }
  assert (∀ q, I1 (<[idx := <["quantity" := q]> item3]> inventory)) as HI4.
  { intros q. unfold I1 in *.
    rewrite product_numbers_insert, product_number_insert_ne by done.
    by rewrite <- product_numbers_insert. }
  destruct (Py.is_empty qty); simpl; [done|].
  destruct (Py.isdigit qty); simpl; [|done].
  rewrite list_insert_insert_eq. apply HI4.
Qed.

(** [I1] in the words of the invariant: two different positions share a
    product number only when it is empty. *)
Lemma NoDup_filter_pairwise (l : list string) :
  NoDup (filter (λ p, p ≠ "") l)
  ↔ ∀ i j p, i ≠ j → l !! i = Some p → l !! j = Some p → p = "".
Proof.
  induction l as [|h t IH].
  - split; [by intros _ i j p _ ?|constructor].
  - rewrite filter_cons. split.
    + intros Hnd i j p Hij Hi Hj.
      destruct (decide (p = "")) as [|Hp]; [done|exfalso].
      assert (NoDup (filter (λ p, p ≠ "") t) ∧ (h = p → p ∉ t)) as [Hnd' Hh].
      { destruct (decide (h ≠ "")) as [Hh|Hh].
        - apply NoDup_cons in Hnd as [Hnotin Hnd]. split; [done|].
          intros -> Hin. apply Hnotin. by apply list_elem_of_filter.
        - split; [done|]. intros ->. by destruct Hh. }
      destruct i as [|i], j as [|j]; simpl in *; simplify_eq.
      * apply Hh; [done|]. by eapply list_elem_of_lookup_2.
      * apply Hh; [done|]. by eapply list_elem_of_lookup_2.
      * apply Hp. apply (proj1 IH Hnd' i j p); [congruence|done..].
    + intros Hpair.
      assert (NoDup (filter (λ p, p ≠ "") t)) as Hnd'.
      { apply IH. intros i j p Hij Hi Hj. apply (Hpair (S i) (S j) p); [congruence|done..]. }
      destruct (decide (h ≠ "")) as [Hh|Hh]; [|done].
      apply NoDup_cons. split; [|done].
      intros [_ Hin]%list_elem_of_filter.
      apply list_elem_of_lookup in Hin as [j Hj].
      apply Hh. by apply (Hpair 0%nat (S j) h).
Qed.

Lemma I1_pairwise (inventory : list record) :
  I1 inventory
  ↔ ∀ i j a b, i ≠ j → inventory !! i = Some a → inventory !! j = Some b →
      product_number a = product_number b → product_number a = "".
Proof.
  unfold I1. rewrite NoDup_filter_pairwise. split.
  - intros H i j a b Hij Ha Hb Heq.
    apply (H i j (product_number a) Hij); rewrite list_lookup_fmap.
    + by rewrite Ha.
    + by rewrite Hb, Heq.
  - intros H i j p Hij Hi Hj. rewrite list_lookup_fmap in Hi, Hj.
    destruct (inventory !! i) as [a|] eqn:Ha; [|done].
    destruct (inventory !! j) as [b|] eqn:Hb; [|done].
    simpl in *. injection Hi as <-. injection Hj as Hj.
    by apply (H i j a b).
Qed.

(** ** [str] of an integer read back by [int] *)








(** ** The merge of [add_item] *)

Lemma linear_search_strip inventory name :
  linear_search inventory (Py.strip name) = linear_search inventory name.
Proof. unfold linear_search. by rewrite strip_idemp. Qed.

Lemma linear_search_found inventory name :
  Exists (name_matches name) inventory →
  ∃ i item, linear_search inventory name = Z.of_nat i ∧ inventory !! i = Some item
    ∧ name_matches name item
    ∧ ∀ j other, (j < i)%nat → inventory !! j = Some other → ¬ name_matches name other.
Proof.
  intros Hex. destruct (linear_search_spec inventory name) as [H|[_ Hall]]; [done|].
  apply Exists_exists in Hex as (x & Hx & Hm).
  rewrite Forall_forall in Hall. by destruct (Hall x Hx).
Qed.

(** [add_item] past its three input checks. *)
Lemma add_item_valid inventory f askyesno :
  valid_add f →
  add_item inventory f askyesno =
    let name := Py.strip (name_entry f) in
    let qty := Py.strip (qty_entry f) in
    let prodnum := Py.strip (product_entry f) in
    let idx := linear_search inventory name in
    if negb (idx =? -1) then
      if askyesno then
        match inventory !! Z.to_nat idx with
        | None => (inventory, Exception IndexError)
        | Some item =>
            match item !! "quantity" with
            | None => (inventory, Exception KeyError)
            | Some q =>
                match Py.int (Some q) with
                | Raise e => (inventory, Exception e)
                | Ok old =>
                    match Py.int (Some qty) with
                    | Raise e => (inventory, Exception e)
                    | Ok new =>
                        (<[Z.to_nat idx := <["quantity" := Py.str_of_int (old + new)]> item]>
                           inventory,
                         Accepted)
                    end
                end
            end
        end
      else (inventory, Cancelled)
    else
      if existsb (λ itm, String.eqb (Py.strip (get itm "product_number" "")) prodnum)
                 inventory
      then (inventory, DuplicateProductNumber)
      else (inventory ++ [mk prodnum name (Py.strip (cat_entry f)) qty], Accepted).
Proof.
  intros (Hn & Hq & Hp). unfold add_item.
  apply is_empty_false in Hn, Hp. rewrite Hn, Hp, Hq. simpl.
  assert (Py.is_empty (Py.strip (qty_entry f)) = false) as ->.
  { by destruct (Py.strip (qty_entry f)). }
  done.
Qed.

(** [add_item] with the merge confirmed, when [linear_search] finds the
    record [item] at [i]: what is left is the arithmetic on the two
    quantities, whatever the product number and the category of the form. *)
Lemma merge_shape inventory f i item :
  valid_add f →
  linear_search inventory (name_entry f) = Z.of_nat i →
  inventory !! i = Some item →
  let result :=
    match item !! "quantity" with
    | None => (inventory, Exception KeyError)
    | Some q =>
        match Py.int (Some q) with
        | Raise e => (inventory, Exception e)
        | Ok old =>
            match Py.int (Some (Py.strip (qty_entry f))) with
            | Raise e => (inventory, Exception e)
            | Ok new =>
                (<[i := <["quantity" := Py.str_of_int (old + new)]> item]> inventory,
                 Accepted)
            end
        end
    end in
  add_item inventory f true = result
  ∧ ∀ f', name_entry f' = name_entry f → qty_entry f' = qty_entry f →
          Py.strip (product_entry f') ≠ "" → add_item inventory f' true = result.
Proof.
  intros Hvalid Hi Hitem result.
  assert (∀ g, valid_add g → name_entry g = name_entry f → qty_entry g = qty_entry f →
            add_item inventory g true = result) as Hshape.
  { intros g Hg Hgn Hgq. rewrite add_item_valid by done. cbv zeta.
    rewrite Hgn, Hgq, linear_search_strip, Hi.
    replace (Z.of_nat i =? -1) with false by (symmetry; apply Z.eqb_neq; lia).
    cbn [negb]. by rewrite Nat2Z.id, Hitem. }
  split; [by apply Hshape|].
  intros f' Hn' Hq' Hp'. apply Hshape; [|done..].
  destruct Hvalid as (Hn & Hq & Hp). unfold valid_add. by rewrite Hn', Hq'.
Qed.

Local Close Scope Z_scope.

(** ** Bubble sort on lists: one pass and the passes, as list functions *)

Section PassFacts.
Context {A : Type} (gtb : A → A → bool).
Hypothesis gtb_asym : ∀ a b, gtb a b = true → gtb b a = false.
Hypothesis gtb_trans : ∀ a b c, gtb a b = false → gtb b c = false → gtb a c = false.

Local Abbreviation le := (λ a b : A, gtb a b = false).

Lemma gtb_irrefl a : gtb a a = false.
Proof using gtb_asym.
  destruct (gtb a a) eqn:E; [|done]. apply gtb_asym in E as E'. congruence.
Qed.

Lemma pass_perm m l : (pass gtb m l).1 ≡ₚ l.
Proof.
  revert l. induction m as [|m IH]; intros l; [by destruct l|].
  destruct l as [|a [|b t]]; [done..|]. simpl.
  destruct (gtb a b).
  - specialize (IH (a :: t)). destruct (pass gtb m (a :: t)) as [r c]. simpl in *.
    rewrite IH. apply perm_swap.
  - specialize (IH (b :: t)). destruct (pass gtb m (b :: t)) as [r c]. simpl in *.
    by rewrite IH.
Qed.

Lemma pass_app m l1 l2 :
  m < length l1 →
  pass gtb m (l1 ++ l2) = ((pass gtb m l1).1 ++ l2, (pass gtb m l1).2).
Proof.
  revert l1. induction m as [|m IH]; intros l1 Hlen.
  - by destruct l1 as [|a [|b t]]; destruct l2.
  - destruct l1 as [|a [|b t]]; simpl in Hlen; [lia..|]. simpl.
    destruct (gtb a b).
    + specialize (IH (a :: t)). simpl in IH. rewrite IH by lia.
      by destruct (pass gtb m (a :: t)).
    + specialize (IH (b :: t)). simpl in IH. rewrite IH by (simpl; lia).
      by destruct (pass gtb m (b :: t)).
Qed.

(** A pass over a whole list moves a greatest element to its end. *)
Lemma pass_max m l :
  length l = S m →
  ∃ front x, (pass gtb m l).1 = front ++ [x] ∧ ∀ y, y ∈ l → gtb y x = false.
Proof using gtb_asym gtb_trans.
  revert l. induction m as [|m IH]; intros l Hlen.
  - destruct l as [|a [|]]; simpl in Hlen; try lia. exists [], a. split; [done|].
    intros y ->%list_elem_of_singleton. apply gtb_irrefl.
  - destruct l as [|a [|b t]]; simpl in Hlen; try lia. simpl.
    destruct (gtb a b) eqn:Hab.
    + destruct (IH (a :: t)) as (front & x & Heq & Hmax); [simpl; lia|].
      destruct (pass gtb m (a :: t)) as [r c]. simpl in *. subst r.
      exists (b :: front), x. split; [done|].
      intros y [->|[->|Hy]%elem_of_cons]%elem_of_cons.
      * apply Hmax. by left.
      * apply gtb_trans with a; [by apply gtb_asym|]. apply Hmax. by left.
      * apply Hmax. by right.
    + destruct (IH (b :: t)) as (front & x & Heq & Hmax); [simpl; lia|].
      destruct (pass gtb m (b :: t)) as [r c]. simpl in *. subst r.
      exists (a :: front), x. split; [done|].
      intros y [->|Hy]%elem_of_cons.
      * apply gtb_trans with b; [done|]. apply Hmax. by left.
      * by apply Hmax.
Qed.

(** A pass without a swap has seen a list in order, and left it alone. *)
Lemma pass_no_swap m l :
  (pass gtb m l).2 = 0 → length l ≤ S m →
  (pass gtb m l).1 = l ∧ Sorted le l.
Proof.
  revert l. induction m as [|m IH]; intros l Hc Hlen.
  - destruct l as [|a [|]]; simpl in *; try lia; split; auto.
  - destruct l as [|a [|b t]]; simpl in *; [by auto..|].
    destruct (gtb a b) eqn:Hab.
    + by destruct (pass gtb m (a :: t)).
    + specialize (IH (b :: t)).
      destruct (pass gtb m (b :: t)) as [r c]. simpl in *.
      destruct IH as [-> Hs]; [done|lia|]. split; [done|].
      constructor; [done|]. by constructor.
Qed.

Lemma pass_tie m l r :
  List.filter (tieb gtb r) (pass gtb m l).1 = List.filter (tieb gtb r) l.
Proof using gtb_trans.
  revert l. induction m as [|m IH]; intros l; [by destruct l|].
  destruct l as [|a [|b t]]; [done..|]. simpl.
  destruct (gtb a b) eqn:Hab.
  - specialize (IH (a :: t)). destruct (pass gtb m (a :: t)) as [r' c]. simpl in *.
    rewrite IH.
    destruct (tieb gtb r a) eqn:Ha, (tieb gtb r b) eqn:Hb; try done.
    exfalso. unfold tieb in Ha, Hb.
    apply andb_true_iff in Ha as [Ha1 Ha2], Hb as [Hb1 Hb2].
    apply negb_true_iff in Ha1, Ha2, Hb1, Hb2.
    rewrite (gtb_trans a r b) in Hab; done.
  - specialize (IH (b :: t)). destruct (pass gtb m (b :: t)) as [r' c]. simpl in *.
    by rewrite IH.
Qed.

Lemma StronglySorted_app_le (l1 l2 : list A) :
  StronglySorted le l1 → StronglySorted le l2 →
  (∀ x y, x ∈ l1 → y ∈ l2 → gtb x y = false) →
  StronglySorted le (l1 ++ l2).
Proof.
  intros H1 H2 H12. induction H1 as [|a l1 Hs IH Ha]; [done|]. simpl.
  constructor.
  - apply IH. intros x y Hx Hy. apply H12; [by right|done].
  - apply Forall_app. split; [done|].
    apply Forall_forall. intros y Hy. apply H12; [by left|done].
Qed.

Lemma Sorted_StronglySorted_le l : Sorted le l → StronglySorted le l.
Proof using gtb_trans.
  apply Sorted_StronglySorted. intros a b c. apply gtb_trans.
Qed.

Lemma run_passes_sorted n k i st :
  length (items st) = n → i + k = n → settled gtb i (items st) →
  StronglySorted le (items (run_passes gtb n (seq i k) st)).
Proof using gtb_asym gtb_trans.
  revert i st. induction k as [|k IH]; intros i st Hlen Hik Hinv.
  - simpl. destruct Hinv as (pre & suf & Heq & Hsuf & Hs & _).
    assert (pre = []) as ->.
    { apply nil_length_inv. rewrite Heq, length_app in Hlen. lia. }
    by rewrite Heq.
  - simpl. destruct Hinv as (pre & suf & Heq & Hsuf & Hs & Hle).
    assert (length pre = S (n - i - 1)) as Hpre.
    { rewrite Heq, length_app in Hlen. lia. }
    rewrite Heq, pass_app by lia.
    destruct (pass_max (n - i - 1) pre Hpre) as (front & x & Hfront & Hmax).
    pose proof (pass_perm (n - i - 1) pre) as Hperm.
    destruct (pass gtb (n - i - 1) pre) as [l k'] eqn:Hpass. simpl in *.
    destruct (0 <? k') eqn:Hk'.
    + apply IH; simpl.
      * rewrite length_app, (Permutation_length Hperm), <- length_app, <- Heq. done.
      * lia.
      * exists front, (x :: suf). subst l.
        split; [by rewrite <- app_assoc|]. split; [simpl; lia|].
        assert (x ∈ pre) as Hx by (rewrite <- Hperm; set_solver).
        split.
        -- constructor; [done|]. apply Forall_forall. intros y Hy. by apply Hle.
        -- intros a b Ha [->|Hb]%elem_of_cons.
           ++ apply Hmax. rewrite <- Hperm. set_solver.
           ++ apply Hle; [|done]. rewrite <- Hperm. set_solver.
    + simpl. apply Nat.ltb_ge in Hk'. assert (k' = 0) as -> by lia.
      destruct (pass_no_swap (n - i - 1) pre) as [Hsame Hsorted];
        [by rewrite Hpass|lia|].
      rewrite Hpass in Hsame. simpl in Hsame. rewrite Hsame.
      apply StronglySorted_app_le; [by apply Sorted_StronglySorted_le|done|done].
Qed.

Lemma run_passes_perm n range st :
  items (run_passes gtb n range st) ≡ₚ items st.
Proof.
  revert st. induction range as [|i rest IH]; intros st; [done|]. simpl.
  pose proof (pass_perm (n - i - 1) (items st)) as Hperm.
  destruct (pass gtb (n - i - 1) (items st)) as [l k]. simpl in *.
  destruct (0 <? k); [|done]. by rewrite IH.
Qed.

Lemma run_passes_tie n range st r :
  List.filter (tieb gtb r) (items (run_passes gtb n range st))
  = List.filter (tieb gtb r) (items st).
Proof using gtb_trans.
  revert st. induction range as [|i rest IH]; intros st; [done|]. simpl.
  pose proof (pass_tie (n - i - 1) (items st) r) as Htie.
  destruct (pass gtb (n - i - 1) (items st)) as [l k]. simpl in *.
  destruct (0 <? k); [|done]. by rewrite IH.
Qed.

End PassFacts.

(** ** The loops of [bubble_sort] against the list functions *)

(** The loop has moved one place on: the index [S (length pre)] is the
    length of the prefix with [x] behind it. *)
Ltac extend_prefix pre x :=
  replace (S (length pre)) with (length (pre ++ [x]))
    by (rewrite length_app; simpl; lia).

Section Loops.
Context {A : Type} (gt : A → A → res bool) (gtb : A → A → bool) (good : A → Prop).
Hypothesis gt_good : ∀ a b, good a → good b → gt a b = Ok (gtb a b).

Lemma swap_middle (pre : list A) a b t :
  <[(length pre + 1)%nat := a]> (<[length pre := b]> (pre ++ a :: b :: t))
  = (pre ++ [b]) ++ a :: t.
Proof.
  rewrite !insert_app_r_alt by lia.
  rewrite Nat.sub_diag. replace (length pre + 1 - length pre) with 1 by lia.
  simpl. by rewrite <- app_assoc.
Qed.

Lemma inner_step_at (pre : list A) a b t swapped count :
  inner_step gt (length pre) (pre ++ a :: b :: t, swapped, count) =
    match gt a b with
    | Raise e => Raises e (pre ++ a :: b :: t, swapped, count)
    | Ok true => Returns ((pre ++ [b]) ++ a :: t, true, S count)
    | Ok false => Returns ((pre ++ [a]) ++ b :: t, swapped, count)
    end.
Proof.
  assert ((pre ++ a :: b :: t) !! length pre = Some a) as H1
    by by apply list_lookup_middle.
  assert ((pre ++ a :: b :: t) !! (length pre + 1) = Some b) as H2.
  { rewrite (app_assoc pre [a] (b :: t) : pre ++ a :: b :: t = _).
    apply list_lookup_middle. rewrite length_app. simpl. lia. }
  unfold inner_step. rewrite H1, H2.
  destruct (gt a b) as [[]|]; [|by rewrite <- app_assoc|done].
  by rewrite swap_middle.
Qed.

(** The inner loop is one pass. *)
Lemma inner_loop_pass m (pre l : list A) swapped count :
  m < length l → Forall good l →
  for_each (inner_step gt) (seq (length pre) m) (pre ++ l, swapped, count)
  = Returns (pre ++ (pass gtb m l).1,
             swapped || (0 <? (pass gtb m l).2),
             count + (pass gtb m l).2).
Proof using gt_good.
  revert pre l swapped count. induction m as [|m IH]; intros pre l swapped count Hlen Hgood.
  - simpl. destruct l; simpl; by rewrite orb_false_r, Nat.add_0_r.
  - destruct l as [|a [|b t]]; simpl in Hlen; [lia..|].
    cbn [seq for_each]. rewrite inner_step_at.
    apply Forall_cons in Hgood as [Ha Hgood]. apply Forall_cons in Hgood as [Hb Ht].
    rewrite gt_good by done. simpl.
    destruct (gtb a b).
    + extend_prefix pre b.
      rewrite IH; [|simpl; lia|by constructor].
      destruct (pass gtb m (a :: t)) as [r c]. simpl.
      rewrite <- app_assoc, orb_true_r. do 2 f_equal. lia.
    + extend_prefix pre a.
      rewrite IH; [|simpl; lia|by constructor].
      destruct (pass gtb m (b :: t)) as [r c]. simpl.
      by rewrite <- app_assoc.
Qed.

(** The outer loop is the passes. *)
Lemma outer_loop_passes n range (st : sort_state A) :
  length (items st) = n → Forall (λ i, i < n) range → Forall good (items st) →
  outer_loop gt n range st = Returns (run_passes gtb n range st).
Proof using gt_good.
  revert st. induction range as [|i rest IH]; intros st Hlen Hrange Hgood; [done|].
  apply Forall_cons in Hrange as [Hi Hrest]. simpl.
  pose proof (inner_loop_pass (n - i - 1) [] (items st) false (swaps st)) as Hinner.
  simpl in Hinner. rewrite Hinner by (done || lia).
  pose proof (pass_perm gtb (n - i - 1) (items st)) as Hperm.
  destruct (pass gtb (n - i - 1) (items st)) as [l k]. simpl in *.
  destruct (0 <? k); [|done].
  apply IH; simpl; [|done|].
  - by rewrite (Permutation_length Hperm).
  - by rewrite Hperm.
Qed.

Lemma bubble_sort_by_passes (l : list A) :
  Forall good l →
  bubble_sort_by gt l
  = Returns (run_passes gtb (length l) (seq 0 (length l))
               {| items := l; swaps := 0; passes := 0 |}).
Proof using gt_good.
  intros Hgood. unfold bubble_sort_by. apply outer_loop_passes; [done| |done].
  apply Forall_forall. intros i Hi%elem_of_seq. lia.
Qed.

(** A value that cannot be compared stops the first pass. *)
Hypothesis gt_bad : ∀ a b, ¬ good a ∨ ¬ good b → ∃ e, gt a b = Raise e.

Lemma inner_loop_raises m (pre l : list A) swapped count :
  1 ≤ m → m < length l → Exists (λ a, ¬ good a) (take (S m) l) →
  ∃ e st a b, for_each (inner_step gt) (seq (length pre) m) (pre ++ l, swapped, count)
              = Raises e st ∧ gt a b = Raise e.
Proof using gt_bad.
  revert pre l swapped count.
  induction m as [|m IH]; intros pre l swapped count Hm Hlen Hbad; [lia|].
  destruct l as [|a [|b t]]; simpl in Hlen; [lia..|].
  cbn [seq for_each]. rewrite inner_step_at.
  destruct (gt a b) as [v|e] eqn:Hab; [|by eexists e, _, a, b].
  assert (Exists (λ a, ¬ good a) (take m t)) as Hrest.
  { simpl in Hbad. apply Exists_cons in Hbad as [Ha|Hbad].
    { destruct (gt_bad a b) as [e He]; [by left|congruence]. }
    apply Exists_cons in Hbad as [Hb|Hbad]; [|done].
    destruct (gt_bad a b) as [e He]; [by right|congruence]. }
  assert (1 ≤ m) as Hm'.
  { destruct m; [|lia]. by apply Exists_nil in Hrest. }
  destruct v.
  - extend_prefix pre b.
    apply IH; [done|simpl; lia|]. simpl. by apply Exists_cons_tl.
  - extend_prefix pre a.
    apply IH; [done|simpl; lia|]. simpl. by apply Exists_cons_tl.
Qed.

Lemma bubble_sort_by_raises (l : list A) :
  2 ≤ length l → Exists (λ a, ¬ good a) l →
  ∃ e st a b, bubble_sort_by gt l = Raises e st ∧ gt a b = Raise e.
Proof using gt_bad.
  intros Hlen Hbad. unfold bubble_sort_by.
  destruct (length l) as [|n] eqn:Hn; [lia|]. cbn [seq outer_loop].
  destruct (inner_loop_raises (S n - 0 - 1) [] l false 0)
  as (e & [[l' sw] c] & a & b & Hr & Hab).
  - lia.
  - lia.
  - rewrite firstn_all2 by lia. done.
  - simpl in Hr. simpl. rewrite Hr. by eexists e, _, a, b.
Qed.

End Loops.

Section Ordered.
Context {A : Type} (gt : A → A → res bool).

(** A list already in order: the first pass swaps nothing and the sort
    stops there. *)
Lemma inner_loop_ordered m j (l : list A) swapped count :
  (∀ k a b, j ≤ k < j + m → l !! k = Some a → l !! (k + 1) = Some b → gt a b = Ok false) →
  j + m < length l →
  for_each (inner_step gt) (seq j m) (l, swapped, count) = Returns (l, swapped, count).
Proof.
  revert j. induction m as [|m IH]; intros j Hord Hlen; [done|].
  cbn [seq for_each]. unfold inner_step at 1.
  destruct (lookup_lt_is_Some_2 l j) as [a Ha]; [lia|].
  destruct (lookup_lt_is_Some_2 l (j + 1)) as [b Hb]; [lia|].
  rewrite Ha, Hb, (Hord j a b) by (done || lia).
  apply IH; [|lia]. intros k a' b' Hk. apply Hord. lia.
Qed.

Lemma StronglySorted_lookup (R : A → A → Prop) (l : list A) i j a b :
  StronglySorted R l → i < j → l !! i = Some a → l !! j = Some b → R a b.
Proof.
  intros Hs. revert i j. induction Hs as [|x l Hs IH Hx]; intros i j Hij Ha Hb; [done|].
  destruct j as [|j]; [lia|]. simpl in Hb.
  destruct i as [|i]; simpl in Ha.
  - simplify_eq. rewrite Forall_forall in Hx. apply Hx.
    by eapply list_elem_of_lookup_2.
  - apply (IH i j); [lia|done..].
Qed.

Lemma bubble_sort_by_ordered (l : list A) :
  StronglySorted (λ a b, gt a b = Ok false) l →
  bubble_sort_by gt l
  = Returns {| items := l; swaps := 0; passes := Nat.min 1 (length l) |}.
Proof.
  intros Hs. unfold bubble_sort_by.
  destruct (length l) as [|n] eqn:Hn; [done|]. cbn [seq outer_loop].
  simpl items. simpl swaps.
  rewrite inner_loop_ordered; [done| |lia].
  intros k a b Hk Ha Hb.
  apply (StronglySorted_lookup (λ a b, gt a b = Ok false) l k (k + 1) a b Hs);
    [lia|done..].
Qed.

End Ordered.

(** ** The four sort keys *)

Lemma str_gt_leb a b : Py.str_gt a b = negb (String.leb a b).
Proof.
  unfold Py.str_gt, String.ltb, String.leb. rewrite (String.compare_antisym a b).
  by destruct (String.compare b a).
Qed.

Lemma str_gt_asym a b : Py.str_gt a b = true → Py.str_gt b a = false.
Proof.
  rewrite !str_gt_leb. intros H%negb_true_iff. apply negb_false_iff.
  destruct (String.leb_total a b) as [E|E]; congruence.
Qed.

Lemma str_gt_trans a b c :
  Py.str_gt a b = false → Py.str_gt b c = false → Py.str_gt a c = false.
Proof.
  rewrite !str_gt_leb. intros H1%negb_false_iff H2%negb_false_iff.
  apply negb_false_iff. apply Is_true_true.
  apply Is_true_true in H1, H2.
  exact (@transitivity _ String.le _ a b c H1 H2).
Qed.

Lemma record_gtb_asym key a b : record_gtb key a b = true → record_gtb key b a = false.
Proof.
  unfold record_gtb.
  destruct (String.eqb key "name" || String.eqb key "product_number");
    [apply str_gt_asym|].
  destruct (String.eqb key "quantity"); [lia|].
  destruct (String.eqb key "category"); [|done].
  intros H%Nat.ltb_lt. apply Nat.ltb_ge. lia.
Qed.

Lemma record_gtb_trans key a b c :
  record_gtb key a b = false → record_gtb key b c = false → record_gtb key a c = false.
Proof.
  unfold record_gtb.
  destruct (String.eqb key "name" || String.eqb key "product_number");
    [apply str_gt_trans|].
  destruct (String.eqb key "quantity"); [lia|].
  destruct (String.eqb key "category"); [|done].
  intros H1%Nat.ltb_ge H2%Nat.ltb_ge. apply Nat.ltb_ge. lia.
Qed.

Lemma record_gt_comparable key a b :
  comparable key a → comparable key b → record_gt key a b = Ok (record_gtb key a b).
Proof.
  intros Ha Hb. unfold record_gt, compare_gt, record_gtb.
  destruct (String.eqb_spec key "name") as [->|Hn]; [done|].
  destruct (String.eqb_spec key "product_number") as [->|Hp]; [done|].
  destruct (String.eqb_spec key "quantity") as [->|Hq];
    [|by destruct (String.eqb key "category")].
  destruct (Ha eq_refl) as [x Hx], (Hb eq_refl) as [y Hy].
  unfold int_or_zero. rewrite Hx, Hy. done.
Qed.

Lemma record_gt_not_comparable key a b :
  ¬ comparable key a ∨ ¬ comparable key b → ∃ e, record_gt key a b = Raise e.
Proof.
  intros H.
  assert (key = "quantity") as ->.
  { destruct (decide (key = "quantity")) as [|Hne]; [done|].
    destruct H as [H|H]; destruct H; intros ?; done. }
  unfold record_gt, compare_gt. simpl.
  destruct (Py.int (a !! "quantity")) as [x|e] eqn:Hx; [|by eauto].
  destruct (Py.int (b !! "quantity")) as [y|e] eqn:Hy; [|by eauto].
  destruct H as [H|H]; destruct H; intros _; eauto.
Qed.

Lemma tied_comparable key r x :
  comparable key r → comparable key x → tied key r x = tieb (record_gtb key) r x.
Proof.
  intros Hr Hx. unfold tied, tieb. rewrite !record_gt_comparable by done.
  by destruct (record_gtb key x r), (record_gtb key r x).
Qed.

Lemma tied_not_comparable key r x : ¬ comparable key r → tied key r x = false.
Proof.
  intros Hr. unfold tied.
  destruct (record_gt_not_comparable key x r) as [e ->]; [by right|done].
Qed.

Lemma comparable_dec key r : comparable key r ∨ ¬ comparable key r.
Proof.
  unfold comparable. destruct (Py.int (r !! "quantity")) as [z|e] eqn:E.
  - left. eauto.
  - destruct (decide (key = "quantity")) as [->|]; [right|by left].
    intros H. destruct (H eq_refl). congruence.
Qed.

Lemma filter_tied key r (l1 l2 : list record) :
  Forall (comparable key) l1 → Forall (comparable key) l2 →
  List.filter (tieb (record_gtb key) r) l1 = List.filter (tieb (record_gtb key) r) l2 →
  List.filter (tied key r) l1 = List.filter (tied key r) l2.
Proof.
  intros H1 H2 Heq. destruct (comparable_dec key r) as [Hr|Hr].
  - rewrite Forall_forall in H1, H2.
    rewrite (filter_ext_in (tied key r) (tieb (record_gtb key) r) l1),
            (filter_ext_in (tied key r) (tieb (record_gtb key) r) l2); [done|..];
      intros x Hx%list_elem_of_In; apply tied_comparable; auto.
  - assert (∀ l, List.filter (tied key r) l = []) as Hnil.
    { induction l as [|x l IH]; [done|]. simpl. by rewrite tied_not_comparable. }
    by rewrite !Hnil.
Qed.

Lemma bubble_sort_returns_sorted (key : string) (inventory : list record) :
  Forall (comparable key) inventory →
  ∃ st, bubble_sort key inventory = Returns st
    ∧ items st ≡ₚ inventory
    ∧ ordered_by key (items st)
    ∧ ∀ r, List.filter (tied key r) (items st) = List.filter (tied key r) inventory.
Proof.
  intros Hgood. unfold bubble_sort.
  rewrite (bubble_sort_by_passes _ (record_gtb key) (comparable key))
    by (done || apply record_gt_comparable).
  eexists. split; [done|].
  set (st0 := {| items := inventory; swaps := 0; passes := 0 |}).
  set (st := run_passes _ _ _ st0).
  assert (items st ≡ₚ inventory) as Hperm by apply run_passes_perm.
  assert (Forall (comparable key) (items st)) as Hgood' by by rewrite Hperm.
  split; [done|]. split.
  - assert (StronglySorted (λ a b, record_gtb key a b = false) (items st)) as Hs.
    { apply run_passes_sorted with (i := 0);
        [apply record_gtb_asym|apply record_gtb_trans|done|lia|].
      exists inventory, []. rewrite app_nil_r. split; [done|]. split; [done|].
      split; [constructor|]. intros x y _ Hy. by apply elem_of_nil in Hy. }
    unfold ordered_by. clear -Hs Hgood'.
    induction Hs as [|a l Hs IH Ha]; [constructor|].
    apply Forall_cons in Hgood' as [Hga Hgl]. constructor; [by apply IH|].
    rewrite Forall_forall in Ha, Hgl |- *. intros x Hx.
    rewrite record_gt_comparable by auto. f_equal. by apply Ha.
  - intros r. apply filter_tied; [done..|].
    apply (run_passes_tie (record_gtb key) (record_gtb_trans key)).
Qed.

(** ** [json.loads] reads back what [json.dump] writes for an inventory *)

Lemma scanstring_escape_char c tail :
  Json.scanstring (Json.escape_char c ++ tail)
  = match Json.scanstring tail with
    | Some (str, r) => Some (String c str, r)
    | None => None
    end.
Proof. destruct c as [[] [] [] [] [] [] [] []]; reflexivity. Qed.

Lemma scanstring_escape s rest :
  Json.scanstring (Json.escape s ++ "034"%char :: rest) = Some (s, rest).
Proof.
  induction s as [|c s IH]; [done|]. simpl.
  by rewrite <- app_assoc, scanstring_escape_char, IH.
Qed.

Lemma parse_value_str fuel s rest :
  Json.parse_value (S fuel) (Json.dump_str s ++ rest) = Some (VStr s, rest).
Proof.
  unfold Json.dump_str. rewrite <- app_comm_cons, <- app_assoc.
  cbn [app Json.parse_value]. by rewrite scanstring_escape.
Qed.

Lemma skip_ws_spaces n s : Json.skip_ws (repeat " "%char n ++ s) = Json.skip_ws s.
Proof. induction n as [|n IH]; [done|]. simpl. apply IH. Qed.

Lemma skip_ws_newline_indent level s :
  Json.skip_ws (Json.newline_indent level ++ s) = Json.skip_ws s.
Proof. unfold Json.newline_indent. simpl. apply skip_ws_spaces. Qed.

Lemma dump_member_chars k v tail :
  Json.dump_member (k, v) ++ tail
  = "034"%char :: Json.escape k ++ "034"%char :: ":"%char :: " "%char :: "034"%char
      :: Json.escape v ++ "034"%char :: tail.
Proof.
  unfold Json.dump_member, Json.dump_str. simpl.
  by rewrite <- !app_assoc; simpl; rewrite <- !app_assoc.
Qed.

Lemma parse_members_step fuel k v tail :
  Json.parse_members (S (S fuel)) (Json.dump_member (k, v) ++ tail)
  = match Json.skip_ws tail with
    | "}"%char :: r3 => Some ([(k, VStr v)], r3)
    | ","%char :: r3 =>
        match Json.parse_members (S fuel) (Json.skip_ws r3) with
        | Some (kvs, r4) => Some ((k, VStr v) :: kvs, r4)
        | None => None
        end
    | _ => None
    end.
Proof.
  rewrite dump_member_chars.
  cbn [Json.parse_members]. rewrite scanstring_escape.
  change (Json.skip_ws (":"%char :: " "%char :: "034"%char :: Json.escape v ++ "034"%char :: tail))
    with (":"%char :: " "%char :: "034"%char :: Json.escape v ++ "034"%char :: tail).
  cbv iota beta.
  change (Json.skip_ws (" "%char :: "034"%char :: Json.escape v ++ "034"%char :: tail))
    with ("034"%char :: Json.escape v ++ "034"%char :: tail).
  cbn [Json.parse_value]. rewrite scanstring_escape. done.
Qed.

Lemma dump_items_head level (xs : list (list ascii)) c tail :
  (∀ x, x ∈ xs → ∃ t', x = c :: t') → xs ≠ [] →
  ∃ t', Json.dump_items level xs ++ tail = c :: t'.
Proof.
  intros Hall Hne. destruct xs as [|x xs]; [done|].
  destruct (Hall x) as [t' ->]; [by left|].
  destruct xs; simpl; eauto.
Qed.

Lemma parse_members_dump level level' (kvs : list (string * string)) rest fuel :
  kvs ≠ [] → length kvs < fuel →
  Json.parse_members fuel
    (Json.dump_items level (Json.dump_member <$> kvs)
       ++ Json.newline_indent level' ++ "}"%char :: rest)
  = Some (member_value <$> kvs, rest).
Proof.
  revert fuel. induction kvs as [|[k v] kvs IH]; intros fuel Hne Hfuel; [done|].
  destruct fuel as [|fuel]; [simpl in Hfuel; lia|].
  destruct fuel as [|fuel]; [simpl in Hfuel; lia|].
  destruct kvs as [|kv' kvs].
  - cbn [fmap list_fmap Json.dump_items].
    rewrite parse_members_step, skip_ws_newline_indent. done.
  - change (Json.dump_items level (Json.dump_member <$> (k, v) :: kv' :: kvs))
      with (Json.dump_member (k, v) ++ ","%char :: Json.newline_indent level
              ++ Json.dump_items level (Json.dump_member <$> kv' :: kvs)).
    rewrite <- app_assoc, parse_members_step.
    cbn [app]. change (Json.skip_ws (","%char :: ?x)) with (","%char :: x).
    cbv iota beta. rewrite <- app_assoc, skip_ws_newline_indent.
    destruct (dump_items_head level (Json.dump_member <$> kv' :: kvs) "034"%char
                (Json.newline_indent level' ++ "}"%char :: rest)) as [t' Ht'].
    { intros x ([k' v'] & -> & _)%list_elem_of_fmap. eexists.
      rewrite <- (app_nil_r (Json.dump_member _)). apply dump_member_chars. }
    { done. }
    rewrite Ht'. change (Json.skip_ws ("034"%char :: t')) with ("034"%char :: t').
    rewrite <- Ht', IH; [done|done|simpl in *; lia].
Qed.

Lemma dict_of_pairs_fresh (pairs : list (string * pyval)) (d : gmap string pyval) :
  NoDup pairs.*1 → (∀ k, k ∈ pairs.*1 → d !! k = None) →
  foldl (λ d kv, <[kv.1 := kv.2]> d) d pairs = list_to_map pairs ∪ d.
Proof.
  revert d. induction pairs as [|[k v] pairs IH]; intros d Hnd Hfresh; simpl.
  - by rewrite (left_id_L ∅ (∪)).
  - apply NoDup_cons in Hnd as [Hk Hnd].
    rewrite IH; [|done|].
    + rewrite <- insert_union_r, insert_union_l; [done|].
      by apply not_elem_of_list_to_map_1.
    + intros k' Hk'. rewrite lookup_insert_ne; [|by intros ->].
      apply Hfresh. by right.
Qed.

Lemma dict_of_pairs_record (r : record) :
  Json.dict_of_pairs (member_value <$> map_to_list r) = VStr <$> r.
Proof.
  unfold Json.dict_of_pairs.
  assert ((member_value <$> map_to_list r).*1 = (map_to_list r).*1) as Hkeys.
  { rewrite <- list_fmap_compose. by apply list_fmap_ext. }
  rewrite dict_of_pairs_fresh.
  - rewrite (right_id_L ∅ (∪)).
    change member_value with (prod_map (@id string) VStr).
    by rewrite list_to_map_fmap, list_to_map_to_list.
  - rewrite Hkeys. apply NoDup_fst_map_to_list.
  - intros. apply lookup_empty.
Qed.

Lemma dump_record_chars level (r : record) tail :
  ∃ t, Json.dump_record level r ++ tail = "{"%char :: t.
Proof.
  unfold Json.dump_record, Json.dump_container.
  destruct (Json.dump_member <$> map_to_list r); simpl; eauto.
Qed.

Lemma parse_value_record fuel level (r : record) rest :
  size r + 1 < fuel →
  Json.parse_value fuel (Json.dump_record level r ++ rest) = Some (VDict (VStr <$> r), rest).
Proof.
  intros Hfuel. destruct fuel as [|fuel]; [lia|].
  unfold Json.dump_record, Json.dump_container.
  destruct (map_to_list r) as [|kv kvs] eqn:Hr.
  - apply map_to_list_empty_iff in Hr as ->. by rewrite fmap_empty.
  - assert (length (kv :: kvs) = size r) as Hlen by by rewrite <- Hr, length_map_to_list.
    rewrite <- dict_of_pairs_record, Hr.
    set (kvs' := kv :: kvs) in *.
    assert (kvs' ≠ []) as Hne by done. clearbody kvs'.
    assert (∃ x xs, Json.dump_member <$> kvs' = x :: xs) as (x & xs & Hx).
    { destruct kvs'; [done|]. simpl. eauto. }
    rewrite Hx, <- Hx. cbn [app]. rewrite <- !app_assoc.
    cbn [Json.parse_value]. rewrite skip_ws_newline_indent.
    destruct (dump_items_head (S level) (Json.dump_member <$> kvs') "034"%char
                (Json.newline_indent level ++ ["}"%char] ++ rest)) as [t' Ht'].
    { intros y ([k' v'] & -> & _)%list_elem_of_fmap. eexists.
      rewrite <- (app_nil_r (Json.dump_member _)). apply dump_member_chars. }
    { by rewrite Hx. }
    rewrite Ht'. change (Json.skip_ws ("034"%char :: t')) with ("034"%char :: t').
    cbv iota beta. rewrite <- Ht'.
    cbn [app]. rewrite parse_members_dump; [done|done|lia].
Qed.

Lemma parse_elements_step fuel level (r : record) tail :
  size r + 1 < fuel →
  Json.parse_elements (S fuel) (Json.dump_record level r ++ tail)
  = match Json.skip_ws tail with
    | "]"%char :: r' => Some ([VDict (VStr <$> r)], r')
    | ","%char :: r' =>
        match Json.parse_elements fuel (Json.skip_ws r') with
        | Some (vs, r'') => Some (VDict (VStr <$> r) :: vs, r'')
        | None => None
        end
    | _ => None
    end.
Proof. intros Hfuel. cbn [Json.parse_elements]. by rewrite parse_value_record. Qed.

Lemma parse_elements_dump level level' (ds : list record) rest fuel :
  ds ≠ [] → weight ds ≤ fuel →
  Json.parse_elements fuel
    (Json.dump_items level (Json.dump_record level <$> ds)
       ++ Json.newline_indent level' ++ "]"%char :: rest)
  = Some ((λ r : record, VDict (VStr <$> r)) <$> ds, rest).
Proof.
  revert fuel. induction ds as [|d ds IH]; intros fuel Hne Hfuel; [done|].
  change (weight (d :: ds)) with (size d + 3 + weight ds) in Hfuel.
  destruct fuel as [|fuel]; [lia|].
  destruct ds as [|d' ds].
  - cbn [fmap list_fmap Json.dump_items].
    rewrite parse_elements_step, skip_ws_newline_indent by lia. done.
  - change (Json.dump_items level (Json.dump_record level <$> d :: d' :: ds))
      with (Json.dump_record level d ++ ","%char :: Json.newline_indent level
              ++ Json.dump_items level (Json.dump_record level <$> d' :: ds)).
    rewrite <- app_assoc, parse_elements_step by lia.
    cbn [app]. change (Json.skip_ws (","%char :: ?x)) with (","%char :: x).
    cbv iota beta. rewrite <- app_assoc, skip_ws_newline_indent.
    destruct (dump_items_head level (Json.dump_record level <$> d' :: ds) "{"%char
                (Json.newline_indent level' ++ "]"%char :: rest)) as [t' Ht'].
    { intros x (r' & -> & _)%list_elem_of_fmap.
      destruct (dump_record_chars level r' []) as [t Ht]. exists t.
      by rewrite app_nil_r in Ht. }
    { done. }
    rewrite Ht'. change (Json.skip_ws ("{"%char :: t')) with ("{"%char :: t').
    rewrite <- Ht', IH; [done|done|].
    revert Hfuel. generalize (weight (d' :: ds)) (size d). intros. lia.
Qed.

Lemma dump_items_length level (xs : list (list ascii)) :
  list_sum (length <$> xs) ≤ length (Json.dump_items level xs).
Proof.
  induction xs as [|x xs IH]; [done|].
  destruct xs as [|y xs]; [simpl; lia|].
  change (Json.dump_items level (x :: y :: xs))
    with (x ++ ","%char :: Json.newline_indent level ++ Json.dump_items level (y :: xs)).
  change (list_sum (length <$> x :: y :: xs))
    with (length x + list_sum (length <$> y :: xs)).
  rewrite length_app, length_cons, length_app. lia.
Qed.

Lemma dump_record_length level (r : record) : size r + 2 ≤ length (Json.dump_record level r).
Proof.
  unfold Json.dump_record, Json.dump_container.
  rewrite <- length_map_to_list.
  destruct (map_to_list r) as [|kv kvs]; [done|].
  set (kvs' := kv :: kvs).
  assert (length kvs' ≤ list_sum (length <$> (Json.dump_member <$> kvs'))) as H1.
  { clear. induction kvs' as [|[k v] l IH]; [done|].
    cbn [fmap list_fmap list_sum length].
    unfold Json.dump_member at 1, Json.dump_str. simpl. lia. }
  pose proof (dump_items_length (S level) (Json.dump_member <$> kvs')) as H2.
  destruct (Json.dump_member <$> kvs') eqn:E; [done|].
  rewrite length_cons, !length_app. change (length ["}"%char]) with 1. lia.
Qed.

Lemma dump_inventory_length (inventory : list record) :
  weight inventory ≤ 2 * length (Json.dump_inventory inventory).
Proof.
  unfold Json.dump_inventory, Json.dump_container.
  assert (weight inventory
          ≤ 2 * list_sum (length <$> (Json.dump_record 1 <$> inventory))) as H1.
  { induction inventory as [|r l IH]; [done|].
    change (weight (r :: l)) with (size r + 3 + weight l).
    change (list_sum (length <$> (Json.dump_record 1 <$> r :: l)))
      with (length (Json.dump_record 1 r)
            + list_sum (length <$> (Json.dump_record 1 <$> l))).
    pose proof (dump_record_length 1 r) as Hr. revert Hr IH.
    generalize (size r) (weight l). intros. lia. }
  pose proof (dump_items_length 1 (Json.dump_record 1 <$> inventory)) as H2.
  destruct (Json.dump_record 1 <$> inventory) eqn:E; [simpl in *; lia|].
  rewrite length_cons, !length_app. change (length ["]"%char]) with 1. lia.
Qed.

Lemma loads_dump_inventory (inventory : list record) :
  Json.loads (Json.dump_inventory inventory) = Ok (inventory_value inventory).
Proof.
  unfold Json.loads.
  pose proof (dump_inventory_length inventory) as Hlen.
  assert (∃ fuel, 2 * length (Json.dump_inventory inventory) + 2 = S fuel
                  ∧ weight inventory ≤ fuel) as (fuel & -> & Hfuel).
  { exists (2 * length (Json.dump_inventory inventory) + 1). lia. }
  clear Hlen. unfold Json.dump_inventory, Json.dump_container, inventory_value.
  destruct inventory as [|d ds]; [done|].
  set (ds' := d :: ds) in *. assert (ds' ≠ []) as Hne by done. clearbody ds'.
  assert (∃ x xs, Json.dump_record 1 <$> ds' = x :: xs) as (x & xs & Hx).
  { destruct ds'; [done|]. simpl. eauto. }
  rewrite Hx, <- Hx.
  change (Json.skip_ws ("["%char :: ?t)) with ("["%char :: t).
  cbn [Json.parse_value]. rewrite skip_ws_newline_indent.
  destruct (dump_items_head 1 (Json.dump_record 1 <$> ds') "{"%char
              (Json.newline_indent 0 ++ ["]"%char])) as [t' Ht'].
  { intros y (r' & -> & _)%list_elem_of_fmap.
    destruct (dump_record_chars 1 r' []) as [t Ht]. exists t.
    by rewrite app_nil_r in Ht. }
  { by rewrite Hx. }
  rewrite Ht'. change (Json.skip_ws ("{"%char :: t')) with ("{"%char :: t').
  cbv iota beta. rewrite <- Ht'.
  by rewrite parse_elements_dump.
Qed.

(** ** Saving and loading *)

Lemma inventory_value_inj inv1 inv2 :
  inventory_value inv1 = inventory_value inv2 → inv1 = inv2.
Proof.
  unfold inventory_value. intros [= H].
  revert inv2 H. induction inv1 as [|r l IH]; intros [|r' l'] H; try done.
  simpl in H. injection H as Hr Hl.
  apply (map_fmap_inj VStr) in Hr; [|apply _]. subst r'. f_equal. by apply IH.
Qed.

(** ** Filtered views *)

Lemma index_NoDup {A} `{EqDecision A} (l : list A) i x :
  NoDup l → l !! i = Some x → index l x = Some i.
Proof.
  intros Hnd Hi. unfold index.
  destruct (list_find (λ y, y = x) l) as [[j y]|] eqn:Hfind; simpl.
  - apply list_find_Some in Hfind as (Hj & -> & _).
    f_equal. by eapply NoDup_lookup.
  - apply list_find_None in Hfind. rewrite Forall_forall in Hfind.
    destruct (Hfind x); [by eapply list_elem_of_lookup_2|done].
Qed.

(** A store without two equal records: every row of a filtered view carries
    the position of its own record. *)
Lemma filtered_iids_NoDup (inventory data : list record) :
  NoDup inventory → data ⊆ inventory →
  Forall2 (λ item id, ∃ i, id = Some i ∧ inventory !! i = Some item
                           ∧ ∀ j, inventory !! j = Some item → j = i)
          data (filtered_iids inventory data).
Proof.
  intros Hnd Hsub. unfold filtered_iids. induction data as [|x data IH]; [constructor|].
  simpl. constructor.
  - assert (x ∈ inventory) as (i & Hi)%list_elem_of_lookup by (apply Hsub; by left).
    exists i. split; [by apply index_NoDup|]. split; [done|].
    intros j Hj. by eapply NoDup_lookup.
  - apply IH. intros y Hy. apply Hsub. by right.
Qed.

(** ** The order of each key *)


Lemma cat_index_known :
  cat_index (Some "Coating & Wax") = 0 ∧ cat_index (Some "Maintenance") = 1
  ∧ cat_index (Some "Pads") = 2 ∧ cat_index (Some "Accessories") = 3.
Proof. by vm_compute. Qed.






(** ** The scenarios of the specification, and a few more runs *)

Example add_then_merge :
  let first := {| product_entry := "P1"; name_entry := "Wax A";
                 cat_entry := "Coating & Wax"; qty_entry := "5" |} in
  let again := {| product_entry := "P1"; name_entry := "Wax A";
                 cat_entry := "Coating & Wax"; qty_entry := "3" |} in
  add_item [] first true = ([mk "P1" "Wax A" "Coating & Wax" "5"], Accepted)
  ∧ add_item [mk "P1" "Wax A" "Coating & Wax" "5"] again true
    = ([mk "P1" "Wax A" "Coating & Wax" "8"], Accepted).
Proof. split; vm_compute; reflexivity. Qed.

Example add_duplicate_product_number :
  add_item two_items
    {| product_entry := "P1"; name_entry := "Clay"; cat_entry := ""; qty_entry := "1" |} true
  = (two_items, DuplicateProductNumber).
Proof. vm_compute. reflexivity. Qed.

Example sort_by_name :
  bubble_sort "name" [mk "" "Zeta" "" "1"; mk "" "alpha" "" "2"]
  = Returns {| items := [mk "" "alpha" "" "2"; mk "" "Zeta" "" "1"]; swaps := 1; passes := 2 |}.
Proof. vm_compute. reflexivity. Qed.

Example filter_substring :
  keyword_filter "p1" [mk "P1-A" "Wax" "" "1"; mk "Q2" "Foam" "" "2"]
  = [mk "P1-A" "Wax" "" "1"].
Proof. vm_compute. reflexivity. Qed.

Example int_literals :
  Py.int (Some " 1_000 ") = Ok 1000%Z ∧ Py.int (Some "1__0") = Raise ValueError
  ∧ Py.int (Some "-12") = Ok (-12)%Z ∧ Py.int (Some "") = Raise ValueError
  ∧ Py.int None = Raise TypeError.
Proof. vm_compute. auto. Qed.

Example dump_two_items :
  string_of_list_ascii (Json.dump_inventory [ {[ "name" := "Wax" ]}; ∅ ])
  = String "[" (String "010" ("  {" +:+ String "010" ("    " +:+ String "034" ("name" +:+
      String "034" (": " +:+ String "034" ("Wax" +:+ String "034" (String "010" ("  }," +:+
      String "010" ("  {}" +:+ String "010" "]"))))))))).
Proof. vm_compute. reflexivity. Qed.

(** A quantity that is no number comes back from the file as it is:
    [load_from_file] returns what [json.load] read, and nothing looks at the
    quantities. *)
Example load_keeps_unreadable_quantity :
  let stored := [mk "P1" "Wax" "Pads" "many"] in
  load_from_file Done "gyeon inventory.json"
    {[ "gyeon inventory.json" := Json.dump_inventory stored ]}
  = ({[ "gyeon inventory.json" := Json.dump_inventory stored ]}, Ok (inventory_value stored)).
Proof.
  cbv zeta. unfold load_from_file. by rewrite lookup_singleton_eq, loads_dump_inventory.
Qed.

(** * The claims *)

(** Claim C1 (fails on the code).  An update that is rejected should leave
    the store as it was.  [update_selected] writes the name and the category
    before it looks at the product number, and the product number before it
    looks at the quantity: on the store [two_items], an update of the second
    record with the product number of the first is refused as a duplicate,
    and the record has its new name and category all the same; an update
    with a quantity that is not numeric is refused, and the record has its
    new product number. *)
Theorem update_rejected_partial_mutation :
  update_selected two_items (Some 1)
    {| product_entry := "P1"; name_entry := "Shampoo"; cat_entry := "Pads"; qty_entry := "7" |}
  = ([mk "P1" "Wax A" "Coating & Wax" "5"; mk "P2" "Shampoo" "Pads" "3"],
     DuplicateProductNumber)
  ∧ update_selected two_items (Some 1)
      {| product_entry := "P3"; name_entry := ""; cat_entry := ""; qty_entry := "many" |}
    = ([mk "P1" "Wax A" "Coating & Wax" "5"; mk "P3" "Foam" "Maintenance" "3"],
       InputError_quantity).
Proof. split; vm_compute; reflexivity. Qed.

(** Claim C2.  In a store where no two records share a non-empty product
    number, every call of [add_item] and every call of [update_selected],
    however it ends, leaves a store with the same property. *)
Theorem add_update_preserve_I1 (inventory : list record) :
  I1 inventory →
  (∀ f askyesno, I1 (add_item inventory f askyesno).1)
  ∧ (∀ selected f, I1 (update_selected inventory selected f).1).
Proof.
  intros HI. split.
  - intros. by apply add_item_I1.
  - intros. by apply update_selected_I1.
Qed.

Lemma add_update_preserve_I1_witness :
  I1 two_items
  ∧ (∀ f askyesno, I1 (add_item two_items f askyesno).1)
  ∧ (∀ selected f, I1 (update_selected two_items selected f).1).
Proof.
  assert (I1 two_items) as HI.
  { unfold I1. apply (bool_decide_unpack _). vm_compute. exact I. }
  split; [exact HI|]. exact (add_update_preserve_I1 two_items HI).
Defined.




(** Claim C5.  Whenever [save_to_file] returns (its atomic write went
    through, or else its direct write did), [load_from_file] on the same
    path returns the value of the saved inventory, and that value comes from
    no other inventory: the records are the same, in the same order. *)
Theorem save_load_roundtrip atomic direct create path (inventory : list record) (fs : files) :
  atomic = Done ∨ direct = Done →
  ∃ fs' v,
    save_to_file atomic direct path inventory fs = Returns fs'
    ∧ load_from_file create path fs' = (fs', Ok v)
    ∧ v = inventory_value inventory
    ∧ ∀ inventory', inventory_value inventory' = v → inventory' = inventory.
Proof.
  intros Hio. unfold save_to_file.
  assert (∀ fs0 : files,
            load_from_file create path (<[path := Json.dump_inventory inventory]> fs0)
            = (<[path := Json.dump_inventory inventory]> fs0, Ok (inventory_value inventory)))
    as Hload.
  { intros fs0. unfold load_from_file. by rewrite lookup_insert_eq, loads_dump_inventory. }
  destruct atomic as [|left_tmp].
  - eexists _, _. split; [done|]. split; [apply Hload|]. split; [done|].
    intros inventory' H. by apply inventory_value_inj.
  - destruct direct as [|partial]; [|by destruct Hio].
    eexists _, _. split; [done|]. split; [apply Hload|]. split; [done|].
    intros inventory' H. by apply inventory_value_inj.
Qed.

Lemma save_load_roundtrip_witness :
  ∃ fs' v,
    save_to_file (Fails None) Done "gyeon inventory.json" two_items ∅ = Returns fs'
    ∧ load_from_file Done "gyeon inventory.json" fs' = (fs', Ok v)
    ∧ v = inventory_value two_items
    ∧ ∀ inventory', inventory_value inventory' = v → inventory' = two_items.
Proof.
  apply (save_load_roundtrip (Fails None) Done Done "gyeon inventory.json" two_items ∅).
  right. reflexivity.
Defined.



(** Claim C7 (fails on the code).  Every row of a filtered view should
    lead back to the store position of its own record.  [refresh_treeview]
    finds the position with [self.inventory.index(item)], the first
    position that holds an equal record.  In a store with the same record
    at positions 0 and 2, the keyword filter and the category filter both
    return the two occurrences, both get the id 0, and the table ends up
    with one row, the second insert being refused: nothing leads back to
    position 2. *)
Theorem filtered_view_duplicates :
  let inventory := [legacy_wax; mk "P2" "Foam" "Maintenance" "3"; legacy_wax] in
  keyword_filter "wax" inventory = [legacy_wax; legacy_wax]
  ∧ category_filter "Pads" inventory = [legacy_wax; legacy_wax]
  ∧ filtered_iids inventory [legacy_wax; legacy_wax] = [Some 0; Some 0]
  ∧ realtime_filter inventory "wax"
    = Raises TclError [ {| iid := Some 0; values := ("", "Wax", "Pads", "5") |} ]
  ∧ filter_by_category inventory "Pads"
    = Some (Raises TclError [ {| iid := Some 0; values := ("", "Wax", "Pads", "5") |} ]).
Proof. repeat split; vm_compute; reflexivity. Qed.

(** Claim C8.  On a store that is already in order under the test of a
    key, [bubble_sort] returns the store as it is, has swapped nothing, and
    has made one pass (none for the empty store, whose loop has no round). *)
Theorem bubble_sort_ordered_no_swap (key : string) (inventory : list record) :
  ordered_by key inventory →
  bubble_sort key inventory
  = Returns {| items := inventory; swaps := 0; passes := Nat.min 1 (length inventory) |}.
Proof. intros Hord. by apply bubble_sort_by_ordered. Qed.

Lemma bubble_sort_ordered_no_swap_witness :
  bubble_sort "name" sorted_items
  = Returns {| items := sorted_items; swaps := 0; passes := Nat.min 1 (length sorted_items) |}.
Proof.
  apply (bubble_sort_ordered_no_swap "name" sorted_items).
  repeat constructor; vm_compute; reflexivity.
Defined.




(** Claim C10.  Under the conditions of a confirmed merge (the form passes
    the input checks and a record matches the entered name), [add_item]
    keeps the number of records, every record but the first matching one,
    and every field of that record but its quantity; and the outcome does
    not depend on the product number or the category of the form: any
    other non-empty product number, taken or not, and any other category
    give the same result. *)
Theorem add_item_merge_frame (inventory : list record) (f : form) :
  valid_add f →
  Exists (name_matches (name_entry f)) inventory →
  let i := Z.to_nat (linear_search inventory (name_entry f)) in
  let inventory' := (add_item inventory f true).1 in
  length inventory' = length inventory
  ∧ (∀ j, j ≠ i → inventory' !! j = inventory !! j)
  ∧ (∀ item', inventory' !! i = Some item' →
       ∃ item, inventory !! i = Some item
               ∧ ∀ key, key ≠ "quantity" → item' !! key = item !! key)
  ∧ (∀ f', name_entry f' = name_entry f → qty_entry f' = qty_entry f →
           Py.strip (product_entry f') ≠ "" →
           add_item inventory f' true = add_item inventory f true).
Proof.
  intros Hvalid Hex i inventory'.
  destruct (linear_search_found _ _ Hex) as (k & item & Hk & Hitem & Hm & _).
  assert (i = k) as -> by (unfold i; rewrite Hk; apply Nat2Z.id).
  destruct (merge_shape inventory f k item) as [Hshape Hshape']; [done..|].
  assert (inventory' = inventory
          ∨ ∃ q, inventory' = <[k := <["quantity" := q]> item]> inventory) as Hcases.
  { unfold inventory'. rewrite Hshape. repeat case_match; simpl; eauto. }
  split; [|split; [|split]].
  - destruct Hcases as [->|[q ->]]; [done|]. by rewrite length_insert.
  - intros j Hj. destruct Hcases as [->|[q ->]]; [done|].
    by rewrite list_lookup_insert_ne.
  - intros item' Hitem'. exists item. split; [done|]. intros key Hkey.
    destruct Hcases as [Heq|[q Heq]]; rewrite Heq in Hitem'.
    + by simplify_eq.
    + rewrite list_lookup_insert_eq in Hitem' by by eapply lookup_lt_Some.
      simplify_eq. by rewrite lookup_insert_ne.
  - intros f' Hn' Hq' Hp'. rewrite Hshape. by apply Hshape'.
Qed.

Lemma add_item_merge_frame_witness :
  let i := Z.to_nat (linear_search two_items (name_entry wax_form)) in
  let inventory' := (add_item two_items wax_form true).1 in
  length inventory' = length two_items
  ∧ (∀ j, j ≠ i → inventory' !! j = two_items !! j)
  ∧ (∀ item', inventory' !! i = Some item' →
       ∃ item, two_items !! i = Some item
               ∧ ∀ key, key ≠ "quantity" → item' !! key = item !! key)
  ∧ (∀ f', name_entry f' = name_entry wax_form → qty_entry f' = qty_entry wax_form →
           Py.strip (product_entry f') ≠ "" →
           add_item two_items f' true = add_item two_items wax_form true).
Proof.
  apply (add_item_merge_frame two_items wax_form).
  - repeat split; vm_compute; congruence.
  - apply Exists_cons_hd. vm_compute. reflexivity.
Defined.

(** * The rest of the program: lemmas *)

(** ** What [add_item] does to the store *)

Lemma name_matches_search_name name item :
  name_matches name item ↔ search_name item = Py.lower (Py.strip name).
Proof. reflexivity. Qed.

Lemma search_name_insert_ne k v (item : record) :
  k ≠ "name" → search_name (<[k := v]> item) = search_name item.
Proof. intros Hk. unfold search_name, get. by rewrite lookup_insert_ne. Qed.

Lemma search_name_insert v (item : record) :
  search_name (<["name" := v]> item) = Py.lower (Py.strip v).
Proof. unfold search_name, get. by rewrite lookup_insert_eq. Qed.

Lemma search_name_mk pn n c q : search_name (mk pn n c q) = Py.lower (Py.strip n).
Proof.
  unfold mk. rewrite search_name_insert_ne by done. apply search_name_insert.
Qed.

Lemma linear_search_from_names i (l1 l2 : list record) target :
  search_name <$> l1 = search_name <$> l2 →
  linear_search_from i l1 target = linear_search_from i l2 target.
Proof.
  revert i l2. induction l1 as [|a l1 IH]; intros i [|b l2] H; try done.
  simpl in H. injection H as Hab Hl. simpl.
  change (Py.lower (Py.strip (get a "name" ""))) with (search_name a).
  change (Py.lower (Py.strip (get b "name" ""))) with (search_name b).
  rewrite Hab. destruct (String.eqb _ _); [done|]. by apply IH.
Qed.

Lemma linear_search_from_app i (l1 l2 : list record) target :
  (0 ≤ i)%Z →
  linear_search_from i (l1 ++ l2) target
  = if (linear_search_from i l1 target =? -1)%Z
    then linear_search_from (i + Z.of_nat (length l1)) l2 target
    else linear_search_from i l1 target.
Proof.
  revert i. induction l1 as [|a l1 IH]; intros i Hi; cbn [app linear_search_from length].
  - cbn [Z.eqb]. f_equal. lia.
  - destruct (String.eqb _ _) eqn:E.
    + destruct (Z.eqb_spec i (-1)); [lia|done].
    + rewrite IH by lia. destruct (Z.eqb _ _); [|done]. f_equal. lia.
Qed.

Lemma linear_search_names (l1 l2 : list record) name :
  search_name <$> l1 = search_name <$> l2 → linear_search l1 name = linear_search l2 name.
Proof. apply linear_search_from_names. Qed.

Lemma search_names_insert_same (inventory : list record) i item item' :
  inventory !! i = Some item → search_name item' = search_name item →
  search_name <$> <[i := item']> inventory = search_name <$> inventory.
Proof.
  intros Hi Heq. rewrite list_fmap_insert, Heq.
  apply list_insert_id. by rewrite list_lookup_fmap, Hi.
Qed.

(** The shapes an accepted [add_item] can have. *)
Lemma add_item_accepted inventory f askyesno inventory' :
  add_item inventory f askyesno = (inventory', Accepted) →
  let name := Py.strip (name_entry f) in
  let qty := Py.strip (qty_entry f) in
  let prodnum := Py.strip (product_entry f) in
  name ≠ "" ∧ Py.isdigit qty = true ∧ prodnum ≠ ""
  ∧ ((∃ i item q old new,
        linear_search inventory name = Z.of_nat i ∧ askyesno = true
        ∧ inventory !! i = Some item ∧ item !! "quantity" = Some q
        ∧ Py.int (Some q) = Ok old ∧ Py.int (Some qty) = Ok new
        ∧ inventory' = <[i := <["quantity" := Py.str_of_int (old + new)]> item]> inventory)
     ∨ (linear_search inventory name = (-1)%Z
        ∧ Forall (λ it, Py.strip (product_number it) ≠ prodnum) inventory
        ∧ inventory' = inventory ++ [mk prodnum name (Py.strip (cat_entry f)) qty])).
Proof.
  intros H name qty prodnum. unfold add_item in H.
  fold name qty prodnum in H.
  destruct (Py.is_empty name) eqn:En; [done|].
  destruct (Py.is_empty qty) eqn:Eq; [done|]. cbn [orb] in H.
  destruct (Py.isdigit qty) eqn:Ed; [|done]. cbn [negb] in H.
  destruct (Py.is_empty prodnum) eqn:Ep; [done|]. cbn [negb andb] in H.
  apply is_empty_false in En, Ep. do 3 (split; [done|]).
  destruct (linear_search inventory name =? -1)%Z eqn:Els; cbn [negb] in H.
  - right. apply Z.eqb_eq in Els. split; [done|].
    destruct (existsb _ inventory) eqn:Eex; [done|].
    injection H as <-. split; [|done].
    apply Forall_forall. intros it Hin Hp.
    assert (existsb (λ itm, String.eqb (Py.strip (get itm "product_number" "")) prodnum)
                    inventory = true) as Hc; [|congruence].
    apply existsb_exists. exists it. split; [by apply list_elem_of_In|].
    by apply String.eqb_eq.
  - left. apply Z.eqb_neq in Els.
    destruct askyesno; [|done].
    destruct (linear_search_spec inventory name) as [(i & item & Hr & Hi & _)|[Hr _]];
      [|done].
    rewrite Hr, Nat2Z.id, Hi in H.
    destruct (item !! "quantity") as [q|] eqn:Hq; [|done].
    destruct (Py.int (Some q)) as [old|] eqn:Hold; [|done].
    destruct (Py.int (Some qty)) as [new|] eqn:Hnew; [|done].
    injection H as <-. by exists i, item, q, old, new.
Qed.

Lemma add_item_refused inventory f askyesno :
  (add_item inventory f askyesno).2 ≠ Accepted → (add_item inventory f askyesno).1 = inventory.
Proof.
  unfold add_item. repeat case_match; cbn [fst snd]; congruence.
Qed.




Lemma I2_insert_other (inventory : list record) i item k v :
  I2 inventory → inventory !! i = Some item → k ≠ "quantity" →
  I2 (<[i := <[k := v]> item]> inventory).
Proof.
  intros HI Hi Hk. apply Forall_insert; [done|].
  destruct (Forall_lookup_1 _ _ _ _ HI Hi) as (q & Hq & Hd).
  exists q. by rewrite lookup_insert_ne.
Qed.


Lemma accepted_or_not (v : verdict) : v = Accepted ∨ v ≠ Accepted.
Proof. destruct v; auto. Qed.



Lemma add_item_found inventory f askyesno inventory' :
  add_item inventory f askyesno = (inventory', Accepted) →
  ∃ i item,
    linear_search inventory' (name_entry f) = Z.of_nat i
    ∧ inventory' !! i = Some item
    ∧ name_matches (name_entry f) item
    ∧ i = (if (linear_search inventory (name_entry f) =? -1)%Z then length inventory
           else Z.to_nat (linear_search inventory (name_entry f))).
Proof.
  intros E. destruct (add_item_accepted _ _ _ _ E) as (_ & _ & _ & [H|H]).
  - destruct H as (i & item & q & old & new & Hs & _ & Hi & _ & _ & _ & ->).
    rewrite linear_search_strip in Hs.
    set (item' := <["quantity" := _]> item).
    assert (search_name item' = search_name item) as Hn
      by (by apply search_name_insert_ne).
    exists i, item'. repeat split.
    + rewrite <- Hs. apply linear_search_names.
      by apply (search_names_insert_same _ _ item).
    + apply list_lookup_insert_eq. by eapply lookup_lt_Some.
    + apply name_matches_search_name. rewrite Hn.
      destruct (linear_search_spec inventory (name_entry f))
        as [(i' & it & Hr & Hi' & Hm & _)|[Hr _]]; [|lia].
      assert (i' = i) as -> by lia. by simplify_eq.
    + rewrite Hs. destruct (Z.eqb_spec (Z.of_nat i) (-1)); lia.
  - destruct H as (Hs & _ & ->). rewrite linear_search_strip in Hs.
    set (new := mk _ _ _ _).
    assert (name_matches (name_entry f) new) as Hm.
    { apply name_matches_search_name. unfold new. rewrite search_name_mk.
      by rewrite strip_idemp. }
    exists (length inventory), new. repeat split.
    + unfold linear_search in *. rewrite linear_search_from_app by done.
      rewrite Hs. cbn [Z.eqb linear_search_from].
      apply name_matches_search_name in Hm. unfold search_name in Hm.
      rewrite Hm, Pos.eqb_refl, String.eqb_refl. lia.
    + by rewrite lookup_app_r, Nat.sub_diag.
    + done.
    + by rewrite Hs.
Qed.

Lemma add_item_keeps_names inventory f askyesno :
  names_unique inventory → names_unique (add_item inventory f askyesno).1.
Proof.
  intros HN. destruct (add_item inventory f askyesno) as [inventory' v] eqn:E.
  destruct (accepted_or_not v) as [->|Hv].
  - destruct (add_item_accepted _ _ _ _ E) as (_ & _ & _ & [H|H]).
    + destruct H as (i & item & q & old & new & _ & _ & Hi & _ & _ & _ & ->).
      cbn [fst]. unfold names_unique.
      rewrite (search_names_insert_same _ _ item); [done..|].
      by apply search_name_insert_ne.
    + destruct H as (Hs & _ & ->). cbn [fst]. unfold names_unique.
      rewrite fmap_app. apply NoDup_app. split; [done|]. split; [|apply NoDup_singleton].
      intros n Hn Hn'. apply list_elem_of_singleton in Hn'. subst n.
      apply list_elem_of_fmap in Hn as (it & Heq & Hin).
      destruct (linear_search_spec inventory (Py.strip (name_entry f)))
        as [(i' & ? & Hr & _)|[_ Hall]]; [lia|].
      rewrite Forall_forall in Hall. apply (Hall it Hin).
      apply name_matches_search_name. rewrite <- Heq. apply search_name_mk.
  - pose proof (add_item_refused inventory f askyesno) as Hr. rewrite E in Hr.
    cbn [fst snd] in *. by rewrite Hr.
Qed.

(** ** What [update_selected] and [delete_selected] do to the store *)

Lemma updated_from_refl f item : updated_from f item item.
Proof. intros key. by left. Qed.

Lemma updated_from_insert f item item' k v :
  updated_from f item item' →
  (k = "name" ∧ Py.strip (name_entry f) ≠ "" ∧ v = Py.strip (name_entry f))
  ∨ (k = "category" ∧ Py.strip (cat_entry f) ≠ "" ∧ v = Py.strip (cat_entry f))
  ∨ (k = "product_number" ∧ Py.strip (product_entry f) ≠ ""
     ∧ v = Py.strip (product_entry f))
  ∨ (k = "quantity" ∧ Py.isdigit (Py.strip (qty_entry f)) = true
     ∧ v = Py.strip (qty_entry f)) →
  updated_from f item (<[k := v]> item').
Proof.
  intros H Hk key. destruct (decide (key = k)) as [->|Hne].
  - rewrite lookup_insert_eq. right.
    destruct Hk as [(-> & ? & ->)|[(-> & ? & ->)|[(-> & ? & ->)|(-> & ? & ->)]]]; auto 10.
  - rewrite lookup_insert_ne by done. apply H.
Qed.

Lemma update_selected_writes inventory idx f item :
  inventory !! idx = Some item →
  ∃ item', (update_selected inventory (Some idx) f).1 = <[idx := item']> inventory
           ∧ updated_from f item item'.
Proof.
  intros Hidx. unfold update_selected. rewrite Hidx.
  set (name := Py.strip (name_entry f)).
  set (category := Py.strip (cat_entry f)).
  set (qty := Py.strip (qty_entry f)).
  set (prodnum := Py.strip (product_entry f)).
  set (item1 := if Py.is_empty name then item else <["name" := name]> item).
  set (item2 := if Py.is_empty category then item1 else <["category" := category]> item1).
  assert (updated_from f item item1) as H1.
  { unfold item1. destruct (Py.is_empty name) eqn:E; [apply updated_from_refl|].
    apply updated_from_insert; [apply updated_from_refl|].
    left. by apply is_empty_false in E. }
  assert (updated_from f item item2) as H2.
  { unfold item2. destruct (Py.is_empty category) eqn:E; [done|].
    apply updated_from_insert; [done|].
    right; left. by apply is_empty_false in E. }
  destruct (negb (Py.is_empty prodnum) && clashes_from 0 idx prodnum (<[idx:=item2]> inventory));
    cbn [fst].
  { by exists item2. }
  set (item3 := if Py.is_empty prodnum then item2 else <["product_number" := prodnum]> item2).
  assert (updated_from f item item3) as H3.
  { unfold item3. destruct (Py.is_empty prodnum) eqn:E; [done|].
    apply updated_from_insert; [done|].
    right; right; left. by apply is_empty_false in E. }
  rewrite list_insert_insert_eq.
  destruct (Py.is_empty qty); cbn [fst]; [by exists item3|].
  destruct (Py.isdigit qty) eqn:Ed; cbn [negb fst]; [|by exists item3].
  rewrite list_insert_insert_eq. eexists. split; [done|].
  apply updated_from_insert; [done|]. by do 3 right.
Qed.

Lemma update_selected_elsewhere inventory selected f :
  (∀ idx item, selected = Some idx → inventory !! idx ≠ Some item) →
  (update_selected inventory selected f).1 = inventory.
Proof.
  intros H. unfold update_selected. destruct selected as [idx|]; [|done].
  destruct (inventory !! idx) as [item|] eqn:E; [|done].
  by destruct (H idx item).
Qed.

Lemma update_selected_touches inventory selected f :
  let inventory' := (update_selected inventory selected f).1 in
  length inventory' = length inventory
  ∧ (∀ j, selected ≠ Some j → inventory' !! j = inventory !! j)
  ∧ (∀ j item item', inventory !! j = Some item → inventory' !! j = Some item' →
       updated_from f item item').
Proof.
  intros inventory'.
  destruct selected as [idx|]; [destruct (inventory !! idx) as [item|] eqn:E|].
  - destruct (update_selected_writes inventory idx f item E) as (item' & Heq & Hup).
    unfold inventory'. rewrite Heq. split; [apply length_insert|]. split.
    + intros j Hj. apply list_lookup_insert_ne. congruence.
    + intros j it it' Hit Hit'. destruct (decide (j = idx)) as [->|Hne].
      * rewrite list_lookup_insert_eq in Hit' by by eapply lookup_lt_Some.
        by simplify_eq.
      * rewrite list_lookup_insert_ne in Hit' by done.
        simplify_eq. apply updated_from_refl.
  - unfold inventory'. rewrite update_selected_elsewhere by (intros; congruence).
    split; [done|]. split; [done|]. intros. simplify_eq. apply updated_from_refl.
  - unfold inventory'. rewrite update_selected_elsewhere by (intros; congruence).
    split; [done|]. split; [done|]. intros. simplify_eq. apply updated_from_refl.
Qed.


Lemma tidy_written (item : record) key v :
  tidy (get item key "") → v = get item key "" → Py.strip v ≠ "" →
  item !! key = Some (Py.strip v).
Proof.
  intros [Ht|Ht] -> Hne; [|done]. rewrite Ht in *.
  unfold get in *. by destruct (item !! key).
Qed.

Lemma select_update_same inventory idx f :
  on_tree_select inventory (Some idx) = Some (Ok f) →
  (∀ item, inventory !! idx = Some item → tidy_record item) →
  (update_selected inventory (Some idx) f).1 = inventory.
Proof.
  intros Hsel Htidy. unfold on_tree_select in Hsel.
  destruct (inventory !! idx) as [item|] eqn:Hidx; [|done].
  injection Hsel as <-. specialize (Htidy item eq_refl).
  destruct (update_selected_writes inventory idx
              {| product_entry := get item "product_number" "";
                 name_entry := get item "name" "";
                 cat_entry := get item "category" "";
                 qty_entry := get item "quantity" "" |} item Hidx)
    as (item' & -> & Hup).
  apply list_insert_id. rewrite Hidx. f_equal. apply map_eq. intros key. symmetry.
  destruct (Hup key) as [H|[(-> & Hne & H)|[(-> & Hne & H)|[(-> & Hne & H)|(-> & Hd & H)]]]];
    [done|..]; cbn [name_entry cat_entry product_entry qty_entry] in *; rewrite H;
    symmetry; apply tidy_written; try done.
  - apply Htidy. set_solver.
  - apply Htidy. set_solver.
  - apply Htidy. set_solver.
  - apply Htidy. set_solver.
  - intros He. by rewrite He in Hd.
Qed.

Lemma delete_selected_sublist inventory selected askyesno :
  sublist (delete_selected inventory selected askyesno).1 inventory.
Proof.
  unfold delete_selected. destruct selected as [idx|]; [|done].
  destruct (inventory !! idx); [|done].
  destruct askyesno; [|done]. cbn [fst]. apply sublist_delete.
Qed.

Lemma I1_sublist (l1 l2 : list record) : sublist l1 l2 → I1 l2 → I1 l1.
Proof.
  intros Hs HI. unfold I1 in *. eapply sublist_NoDup; [exact HI|]. clear HI.
  induction Hs as [|x l1 l2 Hs IH|x l1 l2 Hs IH]; [done|..]; rewrite !fmap_cons.
  - rewrite !filter_cons. destruct (decide (product_number x ≠ "")); [|done].
    by apply sublist_skip.
  - rewrite filter_cons. destruct (decide (product_number x ≠ "")); [|done].
    by apply sublist_cons.
Qed.

Lemma names_unique_sublist (l1 l2 : list record) :
  sublist l1 l2 → names_unique l2 → names_unique l1.
Proof. intros Hs HN. eapply sublist_NoDup; [exact HN|]. by apply fmap_sublist. Qed.


Lemma delete_selected_shift inventory selected askyesno inventory' how :
  delete_selected inventory selected askyesno = (inventory', how) →
  (how ≠ Deleted → inventory' = inventory)
  ∧ (how = Deleted →
     ∃ idx item, selected = Some idx ∧ askyesno = true ∧ inventory !! idx = Some item
       ∧ length inventory = S (length inventory')
       ∧ (∀ j, j < idx → inventory' !! j = inventory !! j)
       ∧ (∀ j, idx ≤ j → inventory' !! j = inventory !! S j)).
Proof.
  unfold delete_selected. destruct selected as [idx|]; [|by intros [= <- <-]].
  destruct (inventory !! idx) as [item|] eqn:Hidx; [|by intros [= <- <-]].
  destruct askyesno; intros [= <- <-]; [|done].
  split; [done|]. intros _. exists idx, item. repeat split; try done.
  - rewrite length_delete by eauto. apply lookup_lt_Some in Hidx. lia.
  - intros j Hj. by apply list_lookup_delete_lt.
  - intros j Hj. by apply list_lookup_delete_ge.
Qed.

(** ** The table *)

Lemma tree_insert_fresh (tree : list row) i vals :
  Forall (λ r, iid r ≠ Some i) tree →
  tree_insert tree (Some i) vals = Ok (tree ++ [ {| iid := Some i; values := vals |} ]).
Proof.
  intros H. unfold tree_insert.
  destruct (existsb _ tree) eqn:E; [|done].
  apply existsb_exists in E as (r & Hin & Hr).
  apply list_elem_of_In in Hin. rewrite Forall_forall in H. specialize (H r Hin).
  destruct (iid r) as [j|]; [|done]. apply Nat.eqb_eq in Hr. by subst.
Qed.

(** Rows with different ids go into the tree one after the other. *)
Lemma insert_rows_fresh (rows : list (nat * record)) (tree : list row) :
  NoDup rows.*1 →
  Forall (λ r, ∀ i, iid r = Some i → i ∉ rows.*1) tree →
  insert_rows (prod_map Some id <$> rows) tree
  = Returns (tree ++ ((λ p, {| iid := Some p.1; values := row_values p.2 |}) <$> rows)).
Proof.
  revert tree. induction rows as [|[i item] rows IH]; intros tree Hnd Hfresh.
  - simpl. by rewrite app_nil_r.
  - rewrite fmap_cons in Hnd. apply NoDup_cons in Hnd as [Hi Hnd].
    cbn [fmap list_fmap prod_map fst snd id insert_rows].
    rewrite tree_insert_fresh.
    + change (list_fmap _ _ (prod_map Some id) rows) with (prod_map Some id <$> rows).
      rewrite IH; [|done|].
      * by rewrite <- app_assoc.
      * apply Forall_app. split.
        -- eapply Forall_impl; [exact Hfresh|]. intros r Hr j Hj Hin.
           apply (Hr j Hj). rewrite fmap_cons. by right.
        -- apply Forall_singleton. by intros j [= <-].
    + eapply Forall_impl; [exact Hfresh|]. intros r Hr Heq.
      apply (Hr i Heq). rewrite fmap_cons. by left.
Qed.

Lemma imap_rows (inventory : list record) :
  imap (λ i item, (Some i, item)) inventory
  = prod_map Some id <$> imap (λ i item, (i, item)) inventory.
Proof.
  rewrite fmap_imap. by apply imap_ext.
Qed.

Lemma imap_indices {A} (l : list A) : (imap (λ i x, (i, x)) l).*1 = seq 0 (length l).
Proof.
  rewrite fmap_imap. rewrite (imap_ext _ (λ i _, i)) by done.
  apply list_eq. intros i. rewrite list_lookup_imap.
  destruct (l !! i) eqn:E; simpl.
  - symmetry. apply lookup_seq. split; [done|]. by eapply lookup_lt_Some.
  - symmetry. apply lookup_ge_None. rewrite length_seq. by apply lookup_ge_None.
Qed.

Lemma refresh_table_rows (inventory : list record) :
  refresh_table inventory
  = Returns (imap (λ i item, {| iid := Some i; values := row_values item |}) inventory).
Proof.
  unfold refresh_table. rewrite imap_rows, insert_rows_fresh.
  - simpl. f_equal. by rewrite fmap_imap.
  - rewrite imap_indices. apply NoDup_seq.
  - constructor.
Qed.

Lemma refresh_table_rows_lookup (inventory : list record) i item :
  inventory !! i = Some item →
  ∃ rows r, refresh_table inventory = Returns rows ∧ rows !! i = Some r
    ∧ iid r = Some i ∧ values r = row_values item
    ∧ _get_selected_index inventory (Some r) = Some i.
Proof.
  intros Hi. eexists _, _. split; [apply refresh_table_rows|].
  split; [by rewrite list_lookup_imap, Hi|]. done.
Qed.

Lemma index_Some {A} `{EqDecision A} (l : list A) x i :
  index l x = Some i → l !! i = Some x.
Proof.
  unfold index. destruct (list_find _ l) as [[j y]|] eqn:E; [|done].
  intros [= <-]. apply list_find_Some in E as (Hj & -> & _). done.
Qed.

Lemma index_elem_of {A} `{EqDecision A} (l : list A) x :
  x ∈ l → ∃ i, index l x = Some i.
Proof.
  intros Hin. unfold index.
  destruct (list_find_elem_of (λ y, y = x) l x Hin eq_refl) as [[i y] ->]. by exists i.
Qed.

(** A filtered list without repetitions is shown without an error, and
    every row leads back to its record. *)
Lemma refresh_treeview_shows (inventory data : list record) :
  NoDup data → data ⊆ inventory →
  shows inventory data (refresh_treeview inventory (Some data)).
Proof.
  intros Hnd Hsub. unfold shows, refresh_treeview.
  set (pos := λ item : record, default 0 (index inventory item)).
  assert (∀ item, item ∈ data →
            index inventory item = Some (pos item) ∧ inventory !! pos item = Some item)
    as Hpos.
  { intros item Hin. destruct (index_elem_of inventory item (Hsub _ Hin)) as [i Hi].
    unfold pos. rewrite Hi. split; [done|]. by apply index_Some. }
  assert (map (λ item, (index inventory item, item)) data
          = prod_map Some id <$> ((λ item, (pos item, item)) <$> data)) as ->.
  { rewrite <- list_fmap_compose. apply list_fmap_ext. intros i item Hi.
    destruct (Hpos item) as [-> _]; [by eapply list_elem_of_lookup_2|done]. }
  rewrite insert_rows_fresh.
  - eexists. split; [done|]. simpl. apply Forall2_fmap_r, Forall2_fmap_r.
    apply Forall2_same_length_lookup. split; [done|].
    intros i x y Hx Hy. assert (y = x) as -> by congruence.
    destruct (Hpos x) as [_ Hp]; [by eapply list_elem_of_lookup_2|].
    split; [done|]. by exists (pos x).
  - rewrite <- list_fmap_compose. apply NoDup_fmap_2_strong; [|done].
    intros x y Hx Hy Heq. simpl in Heq.
    destruct (Hpos x Hx) as [_ Hpx]. destruct (Hpos y Hy) as [_ Hpy]. congruence.
  - constructor.
Qed.

Lemma filter_NoDup_subseteq (p : record → bool) (inventory : list record) :
  NoDup inventory → NoDup (List.filter p inventory) ∧ List.filter p inventory ⊆ inventory.
Proof.
  assert (List.filter p inventory ⊆ inventory) as Hsub.
  { intros x Hx. apply list_elem_of_In in Hx. apply filter_In in Hx as [Hx _].
    by apply list_elem_of_In. }
  intros Hnd. split; [|done]. clear Hsub.
  induction Hnd as [|x l Hx Hnd IH]; [constructor|].
  simpl. destruct (p x); [|done]. constructor; [|done].
  intros Hin. apply Hx. apply list_elem_of_In in Hin. apply filter_In in Hin as [Hin _].
  by apply list_elem_of_In.
Qed.

Lemma full_view_shows (inventory : list record) :
  shows inventory inventory (refresh_treeview inventory None).
Proof.
  exists (imap (λ i item, {| iid := Some i; values := row_values item |}) inventory).
  split; [apply refresh_table_rows|].
  apply Forall2_same_length_lookup. split; [by rewrite length_imap|].
  intros i x y Hx Hy. rewrite list_lookup_imap, Hx in Hy. injection Hy as <-.
  split; [done|]. by exists i.
Qed.

(** ** The keyword filter *)

Lemma prefix_app needle hay :
  String.prefix needle hay = true ↔ ∃ after, hay = needle +:+ after.
Proof.
  revert hay. induction needle as [|a n IH]; intros hay.
  - split; [|by destruct hay]. intros _. by exists hay.
  - destruct hay as [|b h]; simpl.
    + split; [done|]. intros [after Ha]. simpl in Ha. done.
    + destruct (ascii_dec a b) as [->|Hne].
      * rewrite IH. split; intros [after Ha]; exists after.
        -- by rewrite Ha.
        -- by injection Ha.
      * split; [done|]. intros [after Ha]. injection Ha as Hab _. by destruct Hne.
Qed.

Lemma contains_from_occurs fuel needle hay :
  Py.contains_from fuel needle hay = true → occurs needle hay.
Proof.
  revert hay. induction fuel as [|f IH]; intros hay; simpl.
  - destruct (String.prefix needle hay) eqn:E; [|done].
    intros _. apply prefix_app in E as [after ->]. by exists "", after.
  - destruct (String.prefix needle hay) eqn:E.
    + intros _. apply prefix_app in E as [after ->]. by exists "", after.
    + destruct hay as [|c t]; [done|]. intros H.
      destruct (IH t H) as (before & after & ->). by exists (String c before), after.
Qed.

Lemma occurs_contains_from fuel needle before after :
  String.length (before +:+ needle +:+ after) ≤ fuel →
  Py.contains_from fuel needle (before +:+ needle +:+ after) = true.
Proof.
  revert fuel. induction before as [|c b IH]; intros fuel Hlen.
  - assert (String.prefix needle ("" +:+ needle +:+ after) = true) as E
      by (apply prefix_app; by exists after).
    destruct fuel; simpl in *; by rewrite E.
  - destruct fuel as [|f]; [simpl in Hlen; lia|].
    cbn [Py.contains_from].
    destruct (String.prefix needle _); [done|].
    change (String c b +:+ needle +:+ after) with (String c (b +:+ needle +:+ after)).
    apply IH. simpl in Hlen. lia.
Qed.

Lemma contains_occurs needle hay : Py.contains needle hay = true ↔ occurs needle hay.
Proof.
  split; [apply contains_from_occurs|].
  intros (before & after & ->). by apply occurs_contains_from.
Qed.

Lemma keyword_filter_elem_of keyword inventory (item : record) :
  item ∈ keyword_filter keyword inventory
  ↔ item ∈ inventory
    ∧ (occurs keyword (Py.lower (get item "name" ""))
       ∨ occurs keyword (Py.lower (get item "product_number" ""))).
Proof.
  unfold keyword_filter. rewrite !list_elem_of_In, filter_In, orb_true_iff.
  by rewrite !contains_occurs.
Qed.

(** ** Every run of the sort, also one that raises *)

Section AnyRun.
Context {A : Type} (gt : A → A → res bool).

Lemma inner_step_run j (inventory : list A) swapped count :
  ∃ inventory' swapped' count',
    final_state (inner_step gt j (inventory, swapped, count)) = (inventory', swapped', count')
    ∧ inventory' ≡ₚ inventory ∧ count ≤ count' ≤ S count.
Proof.
  destruct (inventory !! j) as [a|] eqn:Ha;
    [destruct (inventory !! (j + 1)) as [b|] eqn:Hb|].
  - assert (∃ pre t, inventory = pre ++ a :: b :: t ∧ length pre = j)
      as (pre & t & -> & <-).
    { exists (take j inventory), (drop (S (S j)) inventory).
      pose proof (take_drop_middle _ _ _ Ha) as Hsplit.
      replace (j + 1) with (S j) in Hb by lia.
      pose proof (take_drop_middle _ _ _ Hb) as Hsplit'.
      apply lookup_lt_Some in Ha, Hb.
      assert (drop (S j) inventory = b :: drop (S (S j)) inventory) as Hd.
      { rewrite <- Hsplit' at 1. rewrite drop_app_length'; [done|].
        rewrite length_take. lia. }
      rewrite <- Hd. split; [done|]. rewrite length_take. lia. }
    rewrite inner_step_at.
    destruct (gt a b) as [[]|e]; cbn [final_state].
    + eexists _, _, _. split; [done|]. split; [|lia].
      rewrite <- app_assoc. simpl. apply Permutation_app_head, perm_swap.
    + eexists _, _, _. split; [done|]. split; [|lia]. by rewrite <- app_assoc.
    + eexists _, _, _. split; [done|]. split; [done|lia].
  - unfold inner_step. rewrite Ha, Hb. eexists _, _, _. split; [done|]. split; [done|lia].
  - unfold inner_step. rewrite Ha. eexists _, _, _. split; [done|]. split; [done|lia].
Qed.

Lemma inner_loop_run js (inventory : list A) swapped count :
  ∃ inventory' swapped' count',
    final_state (for_each (inner_step gt) js (inventory, swapped, count))
    = (inventory', swapped', count')
    ∧ inventory' ≡ₚ inventory ∧ count ≤ count' ≤ count + length js.
Proof.
  revert inventory swapped count.
  induction js as [|j js IH]; intros inventory swapped count.
  - eexists _, _, _. split; [done|]. split; [done|]. simpl. lia.
  - destruct (inner_step_run j inventory swapped count)
      as (inv1 & sw1 & c1 & Heq & Hperm & Hc).
    cbn [for_each length].
    destruct (inner_step gt j (inventory, swapped, count)) as [s|e s];
      cbn [final_state] in Heq; subst s.
    + destruct (IH inv1 sw1 c1) as (inv2 & sw2 & c2 & Heq & Hperm2 & Hc2).
      eexists _, _, _. split; [exact Heq|]. split; [by etrans|lia].
    + eexists _, _, _. split; [done|]. split; [done|lia].
Qed.

Lemma outer_loop_run n range (st : sort_state A) :
  let st' := final_state (outer_loop gt n range st) in
  items st' ≡ₚ items st
  ∧ passes st' ≤ passes st + length range
  ∧ swaps st ≤ swaps st' ≤ swaps st + list_sum ((λ i, n - i - 1) <$> range).
Proof.
  revert st. induction range as [|i range IH]; intros st.
  - simpl. split; [done|]. lia.
  - cbn [outer_loop].
    destruct (inner_loop_run (seq 0 (n - i - 1)) (items st) false (swaps st))
      as (inv1 & sw1 & c1 & Heq & Hperm & Hc).
    rewrite length_seq in Hc.
    destruct (for_each _ _ _) as [s|e s]; cbn [final_state] in Heq; subst s.
    + destruct sw1.
      * specialize (IH {| items := inv1; swaps := c1; passes := S (passes st) |}).
        cbn [items swaps passes] in IH. destruct IH as (Hp & Hpass & Hsw).
        cbn zeta. split; [by etrans|]. rewrite fmap_cons. simpl. lia.
      * cbn [final_state items swaps passes]. split; [done|].
        rewrite fmap_cons. simpl. lia.
    + cbn [final_state items swaps passes]. split; [done|].
      rewrite fmap_cons. simpl. lia.
Qed.

Lemma triangle m s k :
  s + k = m → 2 * list_sum ((λ i, m - i - 1) <$> seq s k) = k * (k - 1).
Proof.
  revert s. induction k as [|k IH]; intros s Hm; [done|].
  cbn [seq fmap list_fmap list_sum].
  change (list_fmap _ _ ?f ?l) with (f <$> l).
  specialize (IH (S s) ltac:(lia)).
  replace (m - s - 1) with k by lia. replace (S k - 1) with k by lia.
  destruct k as [|k']; [simpl in *; lia|].
  replace (S k' - 1) with k' in IH by lia.
  change (list_sum (?a :: ?l)) with (a + list_sum l).
  revert IH. generalize (list_sum ((λ i, m - i - 1) <$> seq (S s) (S k'))).
  intros x IH. nia.
Qed.

Lemma bubble_sort_by_run (inventory : list A) :
  let st := final_state (bubble_sort_by gt inventory) in
  items st ≡ₚ inventory
  ∧ passes st ≤ length inventory
  ∧ 2 * swaps st ≤ length inventory * (length inventory - 1).
Proof.
  unfold bubble_sort_by.
  destruct (outer_loop_run (length inventory) (seq 0 (length inventory))
              {| items := inventory; swaps := 0; passes := 0 |}) as (Hp & Hpass & Hsw).
  cbn [items swaps passes] in *. rewrite length_seq in Hpass.
  split; [done|]. split; [lia|].
  rewrite <- (triangle (length inventory) 0) by lia. lia.
Qed.

End AnyRun.

(** ** A sort that returns *)

Lemma short_list_sorted {A} (R : A → A → Prop) (l : list A) :
  length l < 2 → StronglySorted R l.
Proof.
  destruct l as [|a [|b l]]; simpl; intros Hlen; try lia; repeat constructor.
Qed.

Lemma all_or_one (P : record → Prop) (l : list record) :
  (∀ r, P r ∨ ¬ P r) → Forall P l ∨ Exists (λ r, ¬ P r) l.
Proof.
  intros Hdec. induction l as [|r l [IH|IH]]; [by left| |].
  - destruct (Hdec r); [left|right]; by constructor.
  - right. by constructor.
Qed.

(** When the sort of two records or more returns, it has compared them all. *)
Lemma bubble_sort_returns_comparable key inventory st :
  bubble_sort key inventory = Returns st → 2 ≤ length inventory →
  Forall (comparable key) inventory.
Proof.
  intros Hret Hlen.
  destruct (all_or_one (comparable key) inventory (comparable_dec key)) as [H|H]; [done|].
  destruct (bubble_sort_by_raises (record_gt key) (comparable key)
              (record_gt_not_comparable key) inventory Hlen H) as (e & st' & _ & _ & Hr & _).
  unfold bubble_sort in Hret. congruence.
Qed.

Lemma bubble_sort_returns_ordered key inventory st :
  bubble_sort key inventory = Returns st → ordered_by key (items st).
Proof.
  intros Hret. destruct (decide (length inventory < 2)) as [Hlen|Hlen].
  - apply short_list_sorted.
    destruct (bubble_sort_by_run (record_gt key) inventory) as (Hperm & _).
    fold (bubble_sort key inventory) in Hperm. rewrite Hret in Hperm.
    cbn [final_state] in Hperm. by rewrite Hperm.
  - destruct (bubble_sort_returns_sorted key inventory) as (st' & Hret' & _ & Hord & _).
    { eapply bubble_sort_returns_comparable; [done|lia]. }
    congruence.
Qed.

Lemma run_passes_swaps {A} (gtb : A → A → bool) n range (st : sort_state A) :
  swaps st ≤ swaps (run_passes gtb n range st).
Proof.
  revert st. induction range as [|i range IH]; intros st; [done|].
  cbn [run_passes]. destruct (pass gtb (n - i - 1) (items st)) as [l k].
  destruct (0 <? k).
  - etrans; [|apply IH]. simpl. lia.
  - simpl. lia.
Qed.

Lemma StronglySorted_among {A} (R1 R2 : A → A → Prop) (l : list A) :
  (∀ a b, a ∈ l → b ∈ l → R1 a b → R2 a b) → StronglySorted R1 l → StronglySorted R2 l.
Proof.
  intros H Hs. induction Hs as [|a l Hs IH Ha]; [constructor|].
  constructor.
  - apply IH. intros x y Hx Hy. apply H; by right.
  - rewrite Forall_forall in Ha |- *. intros x Hx. apply H; [by left|by right|].
    by apply Ha.
Qed.

Lemma bubble_sort_no_swap_ordered key inventory st :
  bubble_sort key inventory = Returns st → swaps st = 0 → ordered_by key inventory.
Proof.
  intros Hret Hsw. destruct (decide (length inventory < 2)) as [Hlen|Hlen].
  { by apply short_list_sorted. }
  assert (Forall (comparable key) inventory) as Hgood
    by (eapply bubble_sort_returns_comparable; [done|lia]).
  unfold bubble_sort in Hret.
  rewrite (bubble_sort_by_passes _ (record_gtb key) (comparable key)) in Hret
    by (done || apply record_gt_comparable).
  injection Hret as <-.
  destruct (length inventory) as [|n] eqn:En; [lia|].
  cbn [seq run_passes items swaps passes] in Hsw.
  replace (S n - 0 - 1) with n in Hsw by lia.
  pose proof (pass_no_swap (record_gtb key) n inventory) as Hpass.
  destruct (pass (record_gtb key) n inventory) as [l k]. cbn [fst snd] in Hpass.
  assert (k = 0) as ->.
  { destruct (0 <? k) eqn:Ek.
    - pose proof (run_passes_swaps (record_gtb key) (S n) (seq 1 n)
                    {| items := l; swaps := 0 + k; passes := 1 |}) as Hm.
      cbn [swaps] in Hm. apply Nat.ltb_lt in Ek. lia.
    - apply Nat.ltb_ge in Ek. lia. }
  destruct Hpass as [_ Hsorted]; [done|lia|].
  apply (Sorted_StronglySorted_le _ (record_gtb_trans key)) in Hsorted.
  unfold ordered_by. eapply StronglySorted_among; [|exact Hsorted].
  intros a b Ha Hb Hab. rewrite Forall_forall in Hgood.
  rewrite record_gt_comparable by auto. by f_equal.
Qed.

(** ** What every run of the sort keeps *)

Lemma I1_perm (l1 l2 : list record) : l1 ≡ₚ l2 → I1 l1 → I1 l2.
Proof. intros Hp. unfold I1. by rewrite Hp. Qed.

Lemma I2_perm (l1 l2 : list record) : l1 ≡ₚ l2 → I2 l1 → I2 l2.
Proof. intros Hp. unfold I2. by rewrite Hp. Qed.

Lemma names_unique_perm (l1 l2 : list record) :
  l1 ≡ₚ l2 → names_unique l1 → names_unique l2.
Proof. intros Hp. unfold names_unique. by rewrite Hp. Qed.

Lemma linear_search_missing inventory name :
  linear_search inventory name = (-1)%Z ↔ Forall (λ item, ¬ name_matches name item) inventory.
Proof.
  destruct (linear_search_spec inventory name)
    as [(i & item & Hr & Hi & Hm & _)|[Hr Hall]].
  - split; [lia|]. intros Hall. rewrite Forall_forall in Hall.
    destruct (Hall item); [by eapply list_elem_of_lookup_2|done].
  - done.
Qed.

Lemma linear_search_perm (l1 l2 : list record) name :
  l1 ≡ₚ l2 → linear_search l1 name = (-1)%Z ↔ linear_search l2 name = (-1)%Z.
Proof. intros Hp. rewrite !linear_search_missing. by rewrite Hp. Qed.

Lemma sort_items_perm key inventory :
  final_state (sort_items key inventory) ≡ₚ inventory.
Proof.
  unfold sort_items. destruct (bool_decide _); [|done].
  destruct (bubble_sort_by_run (record_gt key) inventory) as (Hperm & _).
  fold (bubble_sort key inventory) in Hperm.
  by destruct (bubble_sort key inventory).
Qed.

(** ** Loading into the application *)

Lemma clean_filter (loaded : list pyval) :
  VDict <$> (clean loaded).1 = List.filter is_dict loaded
  ∧ (clean loaded).2 = length (List.filter (λ v, negb (is_dict v)) loaded).
Proof.
  induction loaded as [|v loaded [IH1 IH2]]; [done|].
  cbn [clean]. destruct (clean loaded) as [cleaned skipped]. cbn [fst snd] in *.
  destruct v; cbn [fst snd List.filter is_dict negb length fmap list_fmap];
    rewrite ?IH2; try done.
  split; [|done]. f_equal. exact IH1.
Qed.

Lemma clean_length (loaded : list pyval) :
  length (clean loaded).1 + (clean loaded).2 = length loaded.
Proof.
  induction loaded as [|v loaded IH]; [done|].
  cbn [clean]. destruct (clean loaded) as [cleaned skipped]. cbn [fst snd] in *.
  destruct v; cbn [fst snd length]; lia.
Qed.

Lemma clean_dicts (ds : list raw_record) : clean (VDict <$> ds) = (ds, 0).
Proof.
  induction ds as [|d ds IH]; [done|].
  rewrite fmap_cons. cbn [clean]. by rewrite IH.
Qed.

Lemma inventory_value_raw (inventory : list record) :
  inventory_value inventory = VList (VDict <$> raw_inventory inventory).
Proof.
  unfold inventory_value, raw_inventory. f_equal.
  by rewrite <- list_fmap_compose.
Qed.

Lemma load_value_list (l : list pyval) current :
  load_value (VList l) current = ((clean l).1, Loaded (clean l).2).
Proof. unfold load_value. cbn [iterate]. by destruct (clean l). Qed.

Lemma load_value_envelope (d : gmap string pyval) (l : list pyval) current :
  d !! "inventory" = Some (VList l) →
  load_value (VDict d) current = load_value (VList l) current.
Proof.
  intros Hd. unfold load_value. rewrite Hd. by destruct l.
Qed.

Lemma load_value_inventory (inventory : list record) current :
  load_value (inventory_value inventory) current = (raw_inventory inventory, Loaded 0).
Proof.
  rewrite inventory_value_raw, load_value_list. by rewrite clean_dicts.
Qed.

Lemma save_to_file_returns atomic direct path (inventory : list record) (fs : files) :
  atomic = Done ∨ direct = Done →
  ∃ fs', save_to_file atomic direct path inventory fs = Returns fs'
         ∧ fs' !! path = Some (Json.dump_inventory inventory).
Proof.
  intros Hio. unfold save_to_file.
  destruct atomic as [|left_tmp].
  - eexists. split; [done|]. apply lookup_insert_eq.
  - destruct Hio as [Hio| ->]; [done|]. eexists. split; [done|]. apply lookup_insert_eq.
Qed.

Lemma load_from_file_saved create path (inventory : list record) (fs : files) :
  fs !! path = Some (Json.dump_inventory inventory) →
  load_from_file create path fs = (fs, Ok (inventory_value inventory)).
Proof.
  intros Hp. unfold load_from_file. by rewrite Hp, loads_dump_inventory.
Qed.

Lemma startup_saved create path (inventory : list record) (fs : files) :
  fs !! path = Some (Json.dump_inventory inventory) →
  startup create path fs = (fs, inventory_value inventory).
Proof.
  intros Hp. unfold startup. rewrite (load_from_file_saved _ _ inventory) by done.
  rewrite inventory_value_raw. cbn [iterate].
  assert (forallb is_dict (VDict <$> raw_inventory inventory) = true) as ->; [|done].
  induction (raw_inventory inventory); [done|]. by rewrite fmap_cons.
Qed.

Lemma load_inventory_saved create path (inventory : list record) (fs : files) current :
  fs !! path = Some (Json.dump_inventory inventory) →
  load_inventory create path fs current = (fs, raw_inventory inventory, Loaded 0).
Proof.
  intros Hp. unfold load_inventory.
  rewrite (load_from_file_saved _ _ inventory) by done.
  by rewrite load_value_inventory.
Qed.

Lemma load_inventory_missing create path (fs : files) current :
  fs !! path = None →
  ∃ fs', load_inventory create path fs current = (fs', [], Loaded 0)
         ∧ ∀ p, p ≠ path → fs' !! p = fs !! p.
Proof.
  intros Hp. unfold load_inventory, load_from_file. rewrite Hp.
  destruct create as [|[text|]]; eexists; (split; [done|]); intros p Hne; cbn [put].
  - by rewrite lookup_insert_ne.
  - by rewrite lookup_insert_ne.
  - by rewrite lookup_delete_ne.
Qed.

(** ** The summary of [export_as] *)

Lemma odict_get_set {V} (d : list (string * V)) key v key' :
  odict_get (odict_set d key v) key'
  = if String.eqb key key' then Some v else odict_get d key'.
Proof.
  induction d as [|[k w] d IH]; simpl.
  - done.
  - destruct (String.eqb k key) eqn:Ek; simpl.
    + apply String.eqb_eq in Ek as ->. by destruct (String.eqb key key').
    + destruct (String.eqb k key') eqn:Ek'; [|done].
      apply String.eqb_eq in Ek' as ->. by rewrite String.eqb_sym, Ek.
Qed.

Lemma odict_set_keys {V} (d : list (string * V)) key v :
  (odict_set d key v).*1 = if bool_decide (key ∈ d.*1) then d.*1 else d.*1 ++ [key].
Proof.
  induction d as [|[k w] d IH]; [done|]. cbn [odict_set].
  destruct (String.eqb_spec k key) as [->|Hne]; rewrite !fmap_cons; cbn [fst].
  - rewrite bool_decide_eq_true_2; [done|]. by left.
  - rewrite IH. destruct (bool_decide (key ∈ d.*1)) eqn:E.
    + apply bool_decide_eq_true in E. rewrite bool_decide_eq_true_2; [done|]. by right.
    + apply bool_decide_eq_false in E. rewrite bool_decide_eq_false_2; [done|].
      intros [?|?]%elem_of_cons; congruence.
Qed.

Lemma odict_set_NoDup {V} (d : list (string * V)) key v :
  NoDup d.*1 → NoDup (odict_set d key v).*1.
Proof.
  intros Hnd. rewrite odict_set_keys. destruct (bool_decide (key ∈ d.*1)) eqn:E; [done|].
  apply bool_decide_eq_false in E. apply NoDup_app. split; [done|].
  split; [|apply NoDup_singleton]. intros x Hx ->%list_elem_of_singleton. done.
Qed.

Lemma odict_count_sum (d : list (string * nat)) key :
  list_sum (odict_set d key (default 0 (odict_get d key) + 1)).*2 = list_sum d.*2 + 1.
Proof.
  induction d as [|[k n] d IH]; [done|]. cbn [odict_set odict_get].
  destruct (String.eqb k key); rewrite !fmap_cons; cbn [snd default];
    change (list_sum (?a :: ?l)) with (a + list_sum l).
  - unfold id. lia.
  - rewrite IH. lia.
Qed.

(** The records of a category, in the order of the inventory. *)
Lemma export_step_total s it :
  total_items (export_step s it) = total_items s
  ∧ total_quantity (export_step s it) = (total_quantity s + export_quantity it)%Z.
Proof. done. Qed.

Lemma export_fold_counts (inventory : list record) s c :
  odict_get (by_category_counts (foldl export_step s inventory)) c
  = let n := length (List.filter (λ it, String.eqb (export_category it) c) inventory) in
    if n =? 0 then odict_get (by_category_counts s) c
    else Some (default 0 (odict_get (by_category_counts s) c) + n).
Proof.
  revert s. induction inventory as [|it inventory IH]; intros s; [done|].
  cbn [foldl List.filter]. rewrite IH. cbn zeta.
  cbn [export_step by_category_counts]. rewrite odict_get_set.
  change (match odict_get (by_category_counts s) (export_category it) with
          | Some n => n | None => 0 end)
    with (default 0 (odict_get (by_category_counts s) (export_category it))).
  destruct (String.eqb_spec (export_category it) c) as [->|Hne]; cbn [length].
  - destruct (length _ =? 0) eqn:E; cbn [Nat.eqb default].
    + apply Nat.eqb_eq in E. by rewrite E.
    + unfold id. f_equal. lia.
  - done.
Qed.

Lemma export_fold_products (inventory : list record) s c :
  odict_get (by_category_products (foldl export_step s inventory)) c
  = let l := List.filter (λ it, String.eqb (export_category it) c) inventory in
    match l with
    | [] => odict_get (by_category_products s) c
    | _ => Some (default [] (odict_get (by_category_products s) c)
                 ++ (export_statement <$> l))
    end.
Proof.
  revert s. induction inventory as [|it inventory IH]; intros s; [done|].
  cbn [foldl List.filter]. rewrite IH. cbn zeta.
  cbn [export_step by_category_products]. rewrite odict_get_set.
  change (match odict_get (by_category_products s) (export_category it) with
          | Some l => l | None => [] end)
    with (default [] (odict_get (by_category_products s) (export_category it))).
  destruct (String.eqb_spec (export_category it) c) as [->|Hne].
  - destruct (List.filter _ inventory) as [|x l]; cbn [default].
    + done.
    + unfold id. by rewrite <- app_assoc.
  - done.
Qed.

Lemma export_fold_totals (inventory : list record) s :
  total_items (foldl export_step s inventory) = total_items s
  ∧ total_quantity (foldl export_step s inventory)
    = (total_quantity s + foldr Z.add 0 (export_quantity <$> inventory))%Z
  ∧ list_sum (by_category_counts (foldl export_step s inventory)).*2
    = list_sum (by_category_counts s).*2 + length inventory
  ∧ (NoDup (by_category_counts s).*1 →
     NoDup (by_category_counts (foldl export_step s inventory)).*1).
Proof.
  revert s. induction inventory as [|it inventory IH]; intros s.
  - simpl. split; [done|]. split; [lia|]. split; [lia|done].
  - cbn [foldl]. destruct (IH (export_step s it)) as (H1 & H2 & H3 & H4).
    split; [done|]. split; [|split].
    + rewrite H2. cbn [export_step total_quantity fmap list_fmap foldr].
      change (list_fmap _ _ ?f ?l) with (f <$> l). lia.
    + rewrite H3. cbn [export_step by_category_counts length].
      change (match odict_get (by_category_counts s) (export_category it) with
              | Some n => n | None => 0 end)
        with (default 0 (odict_get (by_category_counts s) (export_category it))).
      rewrite odict_count_sum. lia.
    + intros Hnd. apply H4. cbn [export_step by_category_counts].
      by apply odict_set_NoDup.
Qed.





Lemma filter_sublist {A} (p : A → bool) (l : list A) : sublist (List.filter p l) l.
Proof.
  induction l as [|a l IH]; [constructor|]. simpl.
  destruct (p a); by constructor.
Qed.

(** * Further properties of the program *)

(** ** Adding, updating and deleting *)

(** Property X1.  An [add_item] that does not go through changes nothing:
    after a validation message, a duplicate product number, a declined
    merge or an exception, the inventory is the one before the call. *)
Theorem add_item_refusal_keeps_store inventory f askyesno inventory' v :
  add_item inventory f askyesno = (inventory', v) → v ≠ Accepted → inventory' = inventory.
Proof.
  intros E Hv. pose proof (add_item_refused inventory f askyesno) as H.
  rewrite E in H. by apply H.
Qed.

Lemma add_item_refusal_keeps_store_witness :
  add_item two_items
    {| product_entry := "P1"; name_entry := "Clay"; cat_entry := ""; qty_entry := "1" |} true
  = (two_items, DuplicateProductNumber)
  ∧ two_items = two_items.
Proof.
  assert (add_item two_items
            {| product_entry := "P1"; name_entry := "Clay"; cat_entry := "";
               qty_entry := "1" |} true
          = (two_items, DuplicateProductNumber)) as E by (vm_compute; reflexivity).
  split; [exact E|].
  apply (add_item_refusal_keeps_store _ _ _ _ _ E). discriminate.
Defined.

(** Property X2.  What [add_item] accepted, [linear_search] finds: after
    an accepted add, the search for the entered name returns the position of
    a record with that name, the position of the record merged into or,
    after an append, the last one. *)
Theorem add_item_then_search inventory f askyesno inventory' :
  add_item inventory f askyesno = (inventory', Accepted) →
  ∃ i item,
    linear_search inventory' (name_entry f) = Z.of_nat i
    ∧ inventory' !! i = Some item
    ∧ name_matches (name_entry f) item
    ∧ i = (if (linear_search inventory (name_entry f) =? -1)%Z then length inventory
           else Z.to_nat (linear_search inventory (name_entry f))).
Proof. apply add_item_found. Qed.

Lemma add_item_then_search_witness :
  ∃ i item,
    linear_search (two_items ++ [mk "P9" "Clay" "Pads" "1"]) " Clay " = Z.of_nat i
    ∧ (two_items ++ [mk "P9" "Clay" "Pads" "1"]) !! i = Some item
    ∧ name_matches " Clay " item
    ∧ i = (if (linear_search two_items " Clay " =? -1)%Z then length two_items
           else Z.to_nat (linear_search two_items " Clay ")).
Proof.
  apply (add_item_then_search two_items
           {| product_entry := "P9"; name_entry := " Clay "; cat_entry := "Pads";
              qty_entry := "1" |} true).
  vm_compute. reflexivity.
Defined.





(** Property X5.  An inventory in which no two records have the same name
    up to case and surrounding blanks stays so under [add_item] and
    [delete_selected]: a second record with a name already present is never
    appended. *)
Theorem add_delete_keep_names_unique (inventory : list record) :
  names_unique inventory →
  (∀ f askyesno, names_unique (add_item inventory f askyesno).1)
  ∧ (∀ selected askyesno, names_unique (delete_selected inventory selected askyesno).1).
Proof.
  intros HN. split.
  - intros f askyesno. by apply add_item_keeps_names.
  - intros selected askyesno. eapply names_unique_sublist; [|done].
    apply delete_selected_sublist.
Qed.

Lemma add_delete_keep_names_unique_witness :
  (∀ f askyesno, names_unique (add_item two_items f askyesno).1)
  ∧ (∀ selected askyesno, names_unique (delete_selected two_items selected askyesno).1).
Proof.
  apply (add_delete_keep_names_unique two_items).
  apply (bool_decide_unpack _). vm_compute. exact I.
Defined.

(** Property X6.  Whatever its outcome, [update_selected] keeps the length
    of the inventory and every record but the selected one, and in the
    selected record each field is as before or holds the stripped entry of
    the form: a blank entry writes nothing, and a quantity is written only
    when it is a digit string. *)
Theorem update_selected_frame inventory selected f :
  let inventory' := (update_selected inventory selected f).1 in
  length inventory' = length inventory
  ∧ (∀ j, selected ≠ Some j → inventory' !! j = inventory !! j)
  ∧ (∀ j item item', inventory !! j = Some item → inventory' !! j = Some item' →
       updated_from f item item').
Proof. apply update_selected_touches. Qed.

(** Property X7.  Selecting a row and pressing update without editing the
    form changes nothing, when the four fields of the record have no blanks
    around them: [on_tree_select] fills the form from the record and
    [update_selected] writes the same values back. *)
Theorem select_then_update_unchanged inventory idx f :
  on_tree_select inventory (Some idx) = Some (Ok f) →
  (∀ item, inventory !! idx = Some item → tidy_record item) →
  (update_selected inventory (Some idx) f).1 = inventory.
Proof. apply select_update_same. Qed.

Lemma select_then_update_unchanged_witness :
  (update_selected two_items (Some 1)
     {| product_entry := "P2"; name_entry := "Foam"; cat_entry := "Maintenance";
        qty_entry := "3" |}).1 = two_items.
Proof.
  apply (select_then_update_unchanged two_items 1).
  - vm_compute. reflexivity.
  - intros item [= <-] key Hkey.
    apply list_elem_of_In in Hkey. simpl in Hkey.
    destruct Hkey as [<-|[<-|[<-|[<-|[]]]]]; left; vm_compute; reflexivity.
Defined.

(** Property X8.  [delete_selected] removes exactly the selected record:
    the records before it keep their positions, those after it move one
    place down, and the inventory is one shorter; in every other outcome
    (nothing selected, the confirmation declined, an index out of range)
    the inventory is unchanged. *)
Theorem delete_selected_removes_one inventory selected askyesno inventory' how :
  delete_selected inventory selected askyesno = (inventory', how) →
  (how ≠ Deleted → inventory' = inventory)
  ∧ (how = Deleted →
     ∃ idx item, selected = Some idx ∧ askyesno = true ∧ inventory !! idx = Some item
       ∧ length inventory = S (length inventory')
       ∧ (∀ j, j < idx → inventory' !! j = inventory !! j)
       ∧ (∀ j, idx ≤ j → inventory' !! j = inventory !! S j)).
Proof. apply delete_selected_shift. Qed.

Lemma delete_selected_removes_one_witness :
  (Deleted ≠ Deleted → [mk "P2" "Foam" "Maintenance" "3"] = two_items)
  ∧ (Deleted = Deleted →
     ∃ idx item, Some 0 = Some idx ∧ true = true ∧ two_items !! idx = Some item
       ∧ length two_items = S (length [mk "P2" "Foam" "Maintenance" "3"])
       ∧ (∀ j, j < idx → [mk "P2" "Foam" "Maintenance" "3"] !! j = two_items !! j)
       ∧ (∀ j, idx ≤ j → [mk "P2" "Foam" "Maintenance" "3"] !! j = two_items !! S j)).
Proof.
  apply (delete_selected_removes_one two_items (Some 0) true).
  vm_compute. reflexivity.
Defined.

(** Property X9.  [delete_selected] keeps invariant I1: removing a record
    cannot make two product numbers equal. *)
Theorem delete_selected_preserves_I1 inventory selected askyesno :
  I1 inventory → I1 (delete_selected inventory selected askyesno).1.
Proof. intros HI. eapply I1_sublist; [|done]. apply delete_selected_sublist. Qed.

Lemma delete_selected_preserves_I1_witness :
  I1 (delete_selected two_items (Some 0) true).1.
Proof.
  apply (delete_selected_preserves_I1 two_items (Some 0) true).
  apply (bool_decide_unpack _). vm_compute. exact I.
Defined.

(** ** The table *)

(** Property X10.  [refresh_table] never fails, whatever the inventory
    holds: it gives one row per record, in order, and the row of the record
    at position [i] shows its four values and is resolved by
    [_get_selected_index] to [i]. *)
Theorem refresh_table_rows_resolve (inventory : list record) :
  ∃ rows, refresh_table inventory = Returns rows
    ∧ length rows = length inventory
    ∧ ∀ i item, inventory !! i = Some item →
        ∃ r, rows !! i = Some r ∧ values r = row_values item
             ∧ _get_selected_index inventory (Some r) = Some i.
Proof.
  eexists. split; [apply refresh_table_rows|]. split; [by rewrite length_imap|].
  intros i item Hi. eexists. split; [by rewrite list_lookup_imap, Hi|]. done.
Qed.

(** Property X11.  On an inventory without two equal records, the filtered
    views never fail and every row leads back to the record it shows: this
    holds for the search bar ([realtime_filter]), the search dialog
    ([search_item], which also reports the number of rows) and the category
    filter ([filter_by_category]). *)
Theorem filtered_views_resolve (inventory : list record) :
  NoDup inventory →
  (∀ search_var,
     let keyword := Py.lower (Py.strip search_var) in
     shows inventory
       (if Py.is_empty keyword then inventory else keyword_filter keyword inventory)
       (realtime_filter inventory search_var))
  ∧ (∀ answer result n,
       search_item inventory (Some answer) = Some (result, n) →
       shows inventory (keyword_filter (Py.lower (Py.strip answer)) inventory) result
       ∧ n = Some (length (keyword_filter (Py.lower (Py.strip answer)) inventory)))
  ∧ (∀ sel result,
       filter_by_category inventory sel = Some result →
       shows inventory (category_filter sel inventory) result).
Proof.
  intros Hnd. split; [|split].
  - intros search_var keyword. unfold realtime_filter. fold keyword.
    destruct (Py.is_empty keyword); [apply full_view_shows|].
    apply refresh_treeview_shows; by apply filter_NoDup_subseteq.
  - intros answer result n. unfold search_item.
    destruct (Py.is_empty (Py.strip answer)); [done|].
    set (keyword := Py.lower (Py.strip answer)).
    pose proof (refresh_treeview_shows inventory (keyword_filter keyword inventory))
      as Hshows.
    destruct Hshows as (rows & Hrows & Hall); [by apply filter_NoDup_subseteq..|].
    cbn zeta. rewrite Hrows. intros [= <- <-]. split; [by exists rows|done].
  - intros sel result. unfold filter_by_category.
    destruct (Py.is_empty sel); [done|]. intros [= <-].
    apply refresh_treeview_shows; by apply filter_NoDup_subseteq.
Qed.

Lemma filtered_views_resolve_witness :
  (∀ search_var,
     let keyword := Py.lower (Py.strip search_var) in
     shows two_items
       (if Py.is_empty keyword then two_items else keyword_filter keyword two_items)
       (realtime_filter two_items search_var))
  ∧ (∀ answer result n,
       search_item two_items (Some answer) = Some (result, n) →
       shows two_items (keyword_filter (Py.lower (Py.strip answer)) two_items) result
       ∧ n = Some (length (keyword_filter (Py.lower (Py.strip answer)) two_items)))
  ∧ (∀ sel result,
       filter_by_category two_items sel = Some result →
       shows two_items (category_filter sel two_items) result).
Proof.
  apply (filtered_views_resolve two_items).
  apply (bool_decide_unpack _). vm_compute. exact I.
Defined.

(** Property X12.  The keyword filter of the search bar and the search
    dialog keeps exactly the records in whose lowercased name or product
    number the keyword occurs, in the order of the inventory. *)
Theorem keyword_filter_occurs keyword inventory :
  (∀ item : record,
     item ∈ keyword_filter keyword inventory
     ↔ item ∈ inventory
       ∧ (occurs keyword (Py.lower (get item "name" ""))
          ∨ occurs keyword (Py.lower (get item "product_number" ""))))
  ∧ sublist (keyword_filter keyword inventory) inventory.
Proof.
  split; [intros item; apply keyword_filter_elem_of|apply filter_sublist].
Qed.

(** ** Sorting *)

(** Property X13.  However [bubble_sort] ends, also when a comparison
    raises in the middle of a pass, the list holds the records it held
    before, each as often as before; it has begun at most as many passes as
    there are records, and made at most n(n-1)/2 swaps. *)
Theorem bubble_sort_any_run (key : string) (inventory : list record) :
  let st := final_state (bubble_sort key inventory) in
  items st ≡ₚ inventory
  ∧ passes st ≤ length inventory
  ∧ 2 * swaps st ≤ length inventory * (length inventory - 1).
Proof. apply bubble_sort_by_run. Qed.

(** Property X14.  Sorting again changes nothing: when [bubble_sort]
    returns, a second sort on the same key makes no swap and returns the
    same list after a single pass. *)
Theorem bubble_sort_twice (key : string) (inventory : list record) st :
  bubble_sort key inventory = Returns st →
  bubble_sort key (items st)
  = Returns {| items := items st; swaps := 0; passes := Nat.min 1 (length inventory) |}.
Proof.
  intros Hret. unfold bubble_sort at 1.
  rewrite bubble_sort_by_ordered by by eapply bubble_sort_returns_ordered.
  destruct (bubble_sort_by_run (record_gt key) inventory) as (Hperm & _).
  fold (bubble_sort key inventory) in Hperm. rewrite Hret in Hperm.
  cbn [final_state] in Hperm. by rewrite (Permutation_length Hperm).
Qed.

Lemma bubble_sort_twice_witness :
  bubble_sort "name" sorted_items
  = Returns {| items := sorted_items; swaps := 0;
               passes := Nat.min 1 (length unsorted_items) |}.
Proof.
  apply (bubble_sort_twice "name" unsorted_items
           {| items := sorted_items; swaps := 2; passes := 2 |}).
  vm_compute. reflexivity.
Defined.

(** Property X15.  A sort that returns has made no swap exactly when the
    inventory was already in order. *)
Theorem bubble_sort_no_swap_iff_ordered (key : string) (inventory : list record) st :
  bubble_sort key inventory = Returns st →
  swaps st = 0 ↔ ordered_by key inventory.
Proof.
  intros Hret. split.
  - by apply bubble_sort_no_swap_ordered.
  - intros Hord. unfold bubble_sort in Hret.
    rewrite bubble_sort_by_ordered in Hret by done. by injection Hret as <-.
Qed.

Lemma bubble_sort_no_swap_iff_ordered_witness :
  swaps {| items := sorted_items; swaps := 2; passes := 2 |} = 0
  ↔ ordered_by "name" unsorted_items.
Proof.
  apply (bubble_sort_no_swap_iff_ordered "name" unsorted_items).
  vm_compute. reflexivity.
Defined.

(** Property X16.  [sort_items] only reorders: for every key, known or
    not, and also when the sort raises, the inventory afterwards is a
    permutation of the one before, so that the invariants I1 and I2 and the
    uniqueness of names are kept, and [linear_search] finds a name after
    the sort exactly when it found it before. *)
Theorem sort_items_only_reorders (key : string) (inventory : list record) :
  let inventory' := final_state (sort_items key inventory) in
  inventory' ≡ₚ inventory
  ∧ (I1 inventory → I1 inventory')
  ∧ (I2 inventory → I2 inventory')
  ∧ (names_unique inventory → names_unique inventory')
  ∧ (∀ name, linear_search inventory' name = (-1)%Z ↔ linear_search inventory name = (-1)%Z).
Proof.
  intros inventory'. pose proof (sort_items_perm key inventory) as Hperm.
  fold inventory' in Hperm. split; [done|]. split; [|split; [|split]].
  - by apply I1_perm.
  - by apply I2_perm.
  - by apply names_unique_perm.
  - intros name. by apply linear_search_perm.
Qed.

(** ** Files *)

(** Property X17.  A save that goes through is read back by the
    application: [load_inventory] then replaces the inventory by the saved
    records, none skipped, and the start of the application ([__init__])
    takes the same records as its inventory. *)
Theorem save_then_load_inventory atomic direct create path (inventory : list record)
    (fs : files) current :
  atomic = Done ∨ direct = Done →
  ∃ fs', save_to_file atomic direct path inventory fs = Returns fs'
    ∧ load_inventory create path fs' current = (fs', raw_inventory inventory, Loaded 0)
    ∧ startup create path fs' = (fs', inventory_value inventory).
Proof.
  intros Hio. destruct (save_to_file_returns atomic direct path inventory fs Hio)
    as (fs' & Hsave & Hp).
  exists fs'. split; [done|]. split.
  - by apply load_inventory_saved.
  - by apply startup_saved.
Qed.

Lemma save_then_load_inventory_witness :
  ∃ fs', save_to_file (Fails None) Done "gyeon inventory.json" two_items ∅ = Returns fs'
    ∧ load_inventory Done "gyeon inventory.json" fs' []
      = (fs', raw_inventory two_items, Loaded 0)
    ∧ startup Done "gyeon inventory.json" fs' = (fs', inventory_value two_items).
Proof.
  apply (save_then_load_inventory (Fails None) Done Done "gyeon inventory.json" two_items ∅ []).
  right. reflexivity.
Defined.

(** Property X18.  From a file that holds a list, or the export format (a
    dict whose key [inventory] holds a list), [load_inventory] keeps the
    dict entries of the list, all of them and in their order, and counts
    the other entries as skipped. *)
Theorem load_inventory_keeps_dicts (data : pyval) (l : list pyval) current :
  data = VList l ∨ (∃ d, data = VDict d ∧ d !! "inventory" = Some (VList l)) →
  ∃ cleaned skipped,
    load_value data current = (cleaned, Loaded skipped)
    ∧ VDict <$> cleaned = List.filter is_dict l
    ∧ skipped = length (List.filter (λ v, negb (is_dict v)) l)
    ∧ length cleaned + skipped = length l.
Proof.
  intros Hdata.
  assert (load_value data current = load_value (VList l) current) as ->.
  { destruct Hdata as [->|(d & -> & Hd)]; [done|]. by apply load_value_envelope. }
  rewrite load_value_list. eexists _, _. split; [done|].
  destruct (clean_filter l) as [H1 H2]. split; [done|]. split; [done|].
  apply clean_length.
Qed.

Lemma load_inventory_keeps_dicts_witness :
  ∃ cleaned skipped,
    load_value (VDict {[ "inventory" := VList [VDict ∅; VStr "abc"; VDict ∅; VInt 3] ]}) []
    = (cleaned, Loaded skipped)
    ∧ VDict <$> cleaned = List.filter is_dict [VDict ∅; VStr "abc"; VDict ∅; VInt 3]
    ∧ skipped
      = length (List.filter (λ v, negb (is_dict v)) [VDict ∅; VStr "abc"; VDict ∅; VInt 3])
    ∧ length cleaned + skipped = length [VDict ∅; VStr "abc"; VDict ∅; VInt 3].
Proof.
  apply (load_inventory_keeps_dicts
           (VDict {[ "inventory" := VList [VDict ∅; VStr "abc"; VDict ∅; VInt 3] ]})).
  right. eexists. split; [reflexivity|]. vm_compute. reflexivity.
Defined.

(** Property X19.  [clear_all], once confirmed, empties the inventory and
    touches no file but the data file.  When the data file is removed, a
    later [load_inventory] gives the empty inventory; when its removal
    fails (the failure is swallowed), the file is still there and a later
    [load_inventory] brings back the records saved in it. *)
Theorem clear_all_then_load removed create path (inventory : list record) (fs : files)
    current :
  let inventory' := (clear_all true removed path inventory fs).1 in
  let fs' := (clear_all true removed path inventory fs).2 in
  inventory' = []
  ∧ (∀ p, p ≠ path → fs' !! p = fs !! p)
  ∧ (removed = true →
     ∃ fs'', load_inventory create path fs' current = (fs'', [], Loaded 0))
  ∧ (removed = false → ∀ saved : list record,
     fs !! path = Some (Json.dump_inventory saved) →
     load_inventory create path fs' current = (fs', raw_inventory saved, Loaded 0)).
Proof.
  intros inventory' fs'. unfold inventory', fs', clear_all. cbn [fst snd].
  split; [done|]. split; [|split].
  - intros p Hp. destruct removed; [by rewrite lookup_delete_ne|done].
  - intros ->.
    destruct (load_inventory_missing create path (delete path fs) current)
      as (fs'' & Hl & _); [apply lookup_delete_eq|].
    by exists fs''.
  - intros -> saved Hsaved. by apply load_inventory_saved.
Qed.

(** ** The export *)

(** Property X20.  The counts in the summary of [export_as]: every record
    is counted once, under its stripped category or under [Uncategorized]
    when that is empty; the count of a category is the number of its
    records, the counts add up to [total_items], which is the length of the
    inventory, and no category is listed twice or has an empty name. *)
Theorem export_counts_by_category (inventory : list record) :
  let s := export_summary inventory in
  total_items s = length inventory
  ∧ list_sum (by_category_counts s).*2 = length inventory
  ∧ NoDup (by_category_counts s).*1
  ∧ (∀ it, export_category it ≠ "")
  ∧ ∀ c, odict_get (by_category_counts s) c
         = let n := length (List.filter (λ it, String.eqb (export_category it) c)
                                        inventory) in
           if n =? 0 then None else Some n.
Proof.
  intros s. unfold s, export_summary.
  set (s0 := {| total_items := length inventory; total_quantity := 0;
                by_category_counts := []; by_category_products := [] |}).
  destruct (export_fold_totals inventory s0) as (H1 & _ & H3 & H4).
  split; [done|]. split; [by rewrite H3|]. split; [apply H4; constructor|]. split.
  - intros it. unfold export_category, stripped_or.
    destruct (Py.is_empty _) eqn:E; [done|]. by apply is_empty_false.
  - intros c. rewrite export_fold_counts. cbn zeta. by destruct (_ =? 0).
Qed.

(** Property X21.  The product lines in the summary of [export_as]: under
    each category stand the lines of exactly its records, in the order of
    the inventory, so as many lines as the count of the category says. *)
Theorem export_products_by_category (inventory : list record) (c : string) :
  let s := export_summary inventory in
  let l := List.filter (λ it, String.eqb (export_category it) c) inventory in
  odict_get (by_category_products s) c
  = match l with
    | [] => None
    | _ => Some (export_statement <$> l)
    end
  ∧ length <$> odict_get (by_category_products s) c = odict_get (by_category_counts s) c.
Proof.
  intros s l. unfold s, export_summary.
  rewrite export_fold_products, export_fold_counts. cbn zeta. fold l.
  destruct l as [|x l']; [done|]. cbn [odict_get by_category_products default app].
  split; [done|]. simpl. by rewrite length_fmap.
Qed.


